(** * IMF World Economic Outlook RAG system: a shallow embedding

    The Python class [IMF_RAG_System] of [src/imf_rag_system.py] and the
    driver [main] are embedded as state-passing functions in a small
    state-and-exception monad.  The objects the class only holds and calls
    (PDF loader, text splitter, embedding model, Chroma vector store,
    RetrievalQA chain, chat model) are embedded next to it: the ones whose
    result is data of the outside world are fields of the class
    [Collaborators], the ones that are plain algorithms are functions.

    The libraries are not part of the repository: their functions are
    embedded after the behaviour of the packages the module imports
    (langchain_text_splitters, langchain_chroma, langchain_classic,
    langchain_core), under the names they have there.  The script
    [src/simple_example.py] sets the object up by the same statements as
    [main]; its function is embedded as [simple_demo].

    Strings are sequences of 8-bit characters and [len] is [String.length].
    Console output ([print]) is not modelled. *)

From Stdlib Require Import ZArith QArith Qabs Lia List String Ascii Sorted.
From Stdlib Require Import DecimalString DecimalZ.
From stdpp Require Import base option gmap strings list.

Local Open Scope string_scope.

(** ** Python values, exceptions and the monad *)

(** An exception: the name of its class and its message. *)
Record exn := Exn { exn_class : string; exn_msg : string }.

Inductive result (A : Type) : Type :=
| Ok (a : A)
| Raise (e : exn).
Arguments Ok {A} a.
Arguments Raise {A} e.

Definition result_map {A B} (f : A → B) (r : result A) : result B :=
  match r with
  | Ok a => Ok (f a)
  | Raise e => Raise e
  end.

Definition result_bind {A B} (r : result A) (k : A → result B) : result B :=
  match r with
  | Ok a => k a
  | Raise e => Raise e
  end.

Declare Scope result_scope.
Delimit Scope result_scope with result.
Notation "'let+' x ':=' r 'in' k" := (result_bind r (fun x => k))
  (at level 10, x name, r at level 100, k at level 200) : result_scope.
Local Open Scope result_scope.

(** Values found in a document's metadata dictionary. *)
Inductive pyval :=
| PyInt (z : Z)
| PyStr (s : string).

(** [langchain_core.documents.Document]. *)
Record Document := {
  page_content : string;
  metadata : gmap string pyval
}.

(** An embedding vector. *)
Definition Vec := list Q.

(** One stored item of a Chroma collection. *)
Record IndexEntry := {
  entry_doc : Document;
  entry_vec : Vec
}.

(** What lies under a persist directory: the entries, and the identifier of
    the embedding model when whoever wrote the directory recorded one.  The
    calls the repository makes record none. *)
Record Collection := {
  stored_embedding_model : option string;
  entries : list IndexEntry
}.

(** The world outside the Python object: the directories holding persisted
    collections, and the prompts sent to the chat model so far.

    Scope of the model.  A directory of the disk holds a collection that
    Chroma can open: a path that exists and is not a readable Chroma store
    (a plain file, a damaged database) is outside the worlds described
    here, and what the library raises on one is not modelled.  The
    constructors of [HuggingFaceEmbeddings] and [ChatAnthropic] are taken to
    return (the model files and the API key are in place); the vectors of
    one embedding model are taken to have one dimension, so that the store
    accepts every vector and every query vector. *)
Record World := {
  disk : gmap string Collection;
  llm_calls : list string
}.

Definition M (A : Type) : Type := World → World * result A.

Definition ret {A} (a : A) : M A := fun w => (w, Ok a).

Definition raise {A} (cls msg : string) : M A :=
  fun w => (w, Raise (Exn cls msg)).

Definition bind {A B} (m : M A) (k : A → M B) : M B :=
  fun w =>
    match m w with
    | (w', Ok a) => k a w'
    | (w', Raise e) => (w', Raise e)
    end.

Definition lift {A} (r : result A) : M A := fun w => (w, r).

Declare Scope py_scope.
Delimit Scope py_scope with py.
Notation "'let*' x ':=' m 'in' k" := (bind m (fun x => k))
  (at level 10, x name, m at level 100, k at level 200) : py_scope.
Notation "'do' m 'then' k" := (bind m (fun _ => k))
  (at level 10, m at level 100, k at level 200) : py_scope.
Local Open Scope py_scope.

(** The classes of Python and of its standard library that do not derive
    from [Exception]; every other class does. *)
Definition outside_Exception : list string :=
  ["BaseException"; "SystemExit"; "KeyboardInterrupt"; "GeneratorExit";
   "CancelledError"; "BaseExceptionGroup"].

Definition derives_from_Exception (e : exn) : bool :=
  negb (existsb (String.eqb (exn_class e)) outside_Exception).

(** [try: m  except Exception as e: h e]: the handler takes the exceptions
    whose class derives from [Exception]; the others pass through. *)
Definition try_except {A} (m : M A) (h : exn → M A) : M A :=
  fun w =>
    match m w with
    | (w', Ok a) => (w', Ok a)
    | (w', Raise e) =>
        if derives_from_Exception e then h e w' else (w', Raise e)
    end.

(** ** The collaborators whose answers are data of the outside world *)

Class Collaborators := {
  (** [PyPDFLoader(path).load()]: the pages of the PDF at [path]. *)
  pdf_load : string → result (list Document);
  (** [HuggingFaceEmbeddings(model_name).embed_documents(texts)]. *)
  embed_documents : string → list string → result (list Vec);
  (** [HuggingFaceEmbeddings(model_name).embed_query(text)]. *)
  embed_query : string → string → result Vec;
  (** The distance Chroma ranks by (smaller is more similar). *)
  distance : Vec → Vec → Q;
  (** [ChatAnthropic(model).invoke(prompt)], parsed to its text. *)
  llm_invoke : string → string → result string;
  (** Chroma's largest batch for one write. *)
  max_batch_size : positive
}.

(** ** Python string operations used by the code *)

Definition newline : string := String (ascii_of_nat 10) EmptyString.

(** [str.isspace] on one character. *)
Definition is_space (c : ascii) : bool :=
  let n := nat_of_ascii c in
  (((9 <=? n) && (n <=? 13)) || ((28 <=? n) && (n <=? 32))
   || (n =? 133) || (n =? 160))%nat.

Fixpoint lstrip (s : string) : string :=
  match s with
  | EmptyString => EmptyString
  | String c s' => if is_space c then lstrip s' else s
  end.

Fixpoint rstrip (s : string) : string :=
  match s with
  | EmptyString => EmptyString
  | String c s' =>
      match rstrip s' with
      | EmptyString => if is_space c then EmptyString else String c EmptyString
      | r => String c r
      end
  end.

(** [s.strip()]. *)
Definition strip (s : string) : string := rstrip (lstrip s).

(** [s.lower()] on the letters A to Z. *)
Definition lower_char (c : ascii) : ascii :=
  let n := nat_of_ascii c in
  if ((65 <=? n) && (n <=? 90))%nat then ascii_of_nat (n + 32) else c.

Fixpoint lower (s : string) : string :=
  match s with
  | EmptyString => EmptyString
  | String c s' => String (lower_char c) (lower s')
  end.

(** [sep.join(l)]. *)
Definition join (sep : string) (l : list string) : string :=
  String.concat sep l.

(** [len(s)] as a Python integer. *)
Definition len (s : string) : Z := Z.of_nat (String.length s).

(** [sub in s] for strings. *)
Fixpoint contains (sub s : string) : bool :=
  String.prefix sub s ||
  match s with
  | EmptyString => false
  | String _ s' => contains sub s'
  end.

(** ** [PromptTemplate] (langchain_core), f-string format

    [format_fields t st vars] is [str.format] restricted to what the
    template uses: replacement fields [{name}] and the escapes for the two
    braces.  [st] is the scanner's state. *)

Inductive fstate :=
| Text
| Opened
| Field (name : string)
| Closed.

Fixpoint format_fields (t : string) (st : fstate) (vars : list (string * string))
  : result string :=
  match t with
  | EmptyString =>
      match st with
      | Text => Ok EmptyString
      | Opened | Field _ =>
          Raise (Exn "ValueError" "expected '}' before end of string")
      | Closed =>
          Raise (Exn "ValueError" "Single '}' encountered in format string")
      end
  | String c t' =>
      match st with
      | Text =>
          if Ascii.eqb c "{" then format_fields t' Opened vars
          else if Ascii.eqb c "}" then format_fields t' Closed vars
          else result_map (String c) (format_fields t' Text vars)
      | Opened =>
          if Ascii.eqb c "{" then result_map (String c) (format_fields t' Text vars)
          else if Ascii.eqb c "}" then
            Raise (Exn "IndexError"
                       "Replacement index 0 out of range for positional args tuple")
          else format_fields t' (Field (String c EmptyString)) vars
      | Field name =>
          if Ascii.eqb c "}" then
            match List.find (fun kv => String.eqb (fst kv) name) vars with
            | Some kv => result_map (String.append (snd kv)) (format_fields t' Text vars)
            | None => Raise (Exn "KeyError" name)
            end
          else format_fields t' (Field (name +:+ String c EmptyString)) vars
      | Closed =>
          if Ascii.eqb c "}" then result_map (String c) (format_fields t' Text vars)
          else Raise (Exn "ValueError" "Single '}' encountered in format string")
      end
  end.

Record PromptTemplate := {
  template : string;
  input_variables : list string
}.

(** [prompt.format] with keyword arguments [vars]. *)
Definition prompt_format (p : PromptTemplate) (vars : list (string * string))
  : result string :=
  format_fields (template p) Text vars.

(** ** [RecursiveCharacterTextSplitter] (langchain_text_splitters)

    The splitter as the code configures it: [chunk_size], [chunk_overlap],
    [length_function=len], and the class defaults for the rest (separators
    blank line, newline, space and the empty string, taken literally;
    [keep_separator=True]; [strip_whitespace=True]). *)

Section TextSplitter.

Variables (chunk_size chunk_overlap : Z).

(** The texts between the occurrences of the non-empty [sep] in [text],
    leftmost first and without overlap.  [skip] counts the characters of
    an occurrence still to pass. *)
Fixpoint split_on (sep text : string) (skip : nat) : list string :=
  match text with
  | EmptyString => [EmptyString]
  | String c text' =>
      match skip with
      | S n => split_on sep text' n
      | O =>
          if String.prefix sep text
          then EmptyString :: split_on sep text' (String.length sep - 1)
          else
            match split_on sep text' O with
            | p :: ps => String c p :: ps
            | [] => [String c EmptyString]
            end
      end
  end.

(** [list(text)]. *)
Fixpoint chars (text : string) : list string :=
  match text with
  | EmptyString => []
  | String c text' => String c EmptyString :: chars text'
  end.

Definition nonempty_string (s : string) : bool :=
  match s with
  | EmptyString => false
  | String _ _ => true
  end.

(** [_split_text_with_regex(text, re.escape(separator), keep_separator=True)]:
    the separator stays at the start of the piece that follows it, and
    empty pieces are dropped. *)
Definition split_text_with_regex (text separator : string) : list string :=
  let splits :=
    if nonempty_string separator then
      match split_on separator text O with
      | [] => []
      | first :: others => first :: List.map (String.append separator) others
      end
    else chars text in
  List.filter nonempty_string splits.

(** [TextSplitter._join_docs]. *)
Definition join_docs (separator : string) (docs : list string) : option string :=
  let text := strip (join separator docs) in
  if nonempty_string text then Some text else None.

Definition nonempty_list {A} (l : list A) : bool :=
  match l with
  | [] => false
  | _ :: _ => true
  end.

Definition more_than_one {A} (l : list A) : bool :=
  match l with
  | _ :: _ :: _ => true
  | _ => false
  end.

(** The [while] loop of [_merge_splits]: pieces leave [current_doc] from
    the front until what stays is within the overlap and leaves room for
    the piece of length [len_d]. *)
Fixpoint pop_front (current_doc : list string) (total len_d separator_len : Z)
  : result (list string * Z) :=
  if ((total >? chunk_overlap)
      || ((total + len_d
           + (if nonempty_list current_doc then separator_len else 0)
           >? chunk_size) && (total >? 0)))%Z
  then
    match current_doc with
    | [] => Raise (Exn "IndexError" "list index out of range")
    | first :: others =>
        pop_front others
          (total - (len first
                    + (if more_than_one current_doc then separator_len else 0)))%Z
          len_d separator_len
    end
  else Ok (current_doc, total).

(** The [for] loop of [_merge_splits], returning the successive values of
    [current_doc] that are joined into a chunk (the last one after the
    loop). *)
Fixpoint merge_loop (splits current_doc : list string) (total separator_len : Z)
  : result (list (list string)) :=
  match splits with
  | [] => Ok [current_doc]
  | d :: splits' =>
      let len_d := len d in
      let append_d (cur : list string) (tot : Z) :=
        let cur' := (cur ++ [d])%list in
        merge_loop splits' cur'
          (tot + (len_d + (if more_than_one cur' then separator_len else 0)))%Z
          separator_len in
      if (total + len_d
          + (if nonempty_list current_doc then separator_len else 0)
          >? chunk_size)%Z
      then
        if nonempty_list current_doc then
          let+ popped := pop_front current_doc total len_d separator_len in
          let+ groups := append_d (fst popped) (snd popped) in
          Ok (current_doc :: groups)
        else append_d current_doc total
      else append_d current_doc total
  end.

(** [TextSplitter._merge_splits(splits, separator)]. *)
Definition merge_splits (splits : list string) (separator : string)
  : result (list string) :=
  let+ groups := merge_loop splits [] 0%Z (len separator) in
  Ok (omap (join_docs separator) groups).

(** The loop of [_split_text] over the pieces; [recur] is [_split_text]
    with the separators that remain, when some remain. *)
Fixpoint split_loop (recur : option (string → result (list string)))
    (splits good_splits : list string) : result (list string) :=
  match splits with
  | [] =>
      if nonempty_list good_splits then merge_splits good_splits EmptyString
      else Ok []
  | s :: splits' =>
      if (len s <? chunk_size)%Z
      then split_loop recur splits' (good_splits ++ [s])%list
      else
        let+ merged :=
          if nonempty_list good_splits
          then merge_splits good_splits EmptyString else Ok [] in
        let+ here :=
          match recur with
          | None => Ok [s]
          | Some f => f s
          end in
        let+ more := split_loop recur splits' [] in
        Ok (merged ++ here ++ more)%list
  end.

(** [RecursiveCharacterTextSplitter._split_text(text, separators)].  The
    first separator that is empty or occurs in the text is used; when none
    does, the last one is. *)
Fixpoint split_text_rec (separators : list string) (text : string)
  : result (list string) :=
  match separators with
  | [] => Raise (Exn "IndexError" "list index out of range")
  | s :: new_separators =>
      if negb (nonempty_string s)
      then split_loop None (split_text_with_regex text s) []
      else if contains s text
      then
        split_loop
          (if nonempty_list new_separators
           then Some (split_text_rec new_separators) else None)
          (split_text_with_regex text s) []
      else if nonempty_list new_separators
      then split_text_rec new_separators text
      else split_loop None (split_text_with_regex text s) []
  end.

Definition default_separators : list string :=
  [newline +:+ newline; newline; " "; EmptyString].

(** [split_text(text)]. *)
Definition split_text (text : string) : result (list string) :=
  split_text_rec default_separators text.

(** [split_documents(documents)]: every document is split on its own and
    its chunks keep its metadata. *)
Fixpoint split_documents (documents : list Document) : result (list Document) :=
  match documents with
  | [] => Ok []
  | doc :: documents' =>
      let+ chunks := split_text (page_content doc) in
      let+ more := split_documents documents' in
      Ok (List.map (fun chunk => {| page_content := chunk;
                                    metadata := metadata doc |}) chunks
          ++ more)%list
  end.

End TextSplitter.

(** ** The Chroma vector store (langchain_chroma), the retriever and the
    RetrievalQA chain (langchain_classic) *)

Section Pipeline.

Context `{Collaborators}.

(** A [Chroma] object: the directory of its collection and the name of
    the embedding model it was given. *)
Record Chroma := {
  chroma_directory : string;
  chroma_embedding : string
}.

Definition empty_collection : Collection :=
  {| stored_embedding_model := None; entries := [] |}.

Definition set_disk (d : gmap string Collection) (w : World) : World :=
  {| disk := d; llm_calls := llm_calls w |}.

(** The entries under a directory; a directory that was never created
    holds none. *)
Definition entries_at (w : World) (directory : string) : list IndexEntry :=
  match disk w !! directory with
  | Some c => entries c
  | None => []
  end.

(** [os.path.exists(path)]. *)
Definition os_path_exists (path : string) : M bool :=
  fun w => (w, Ok (bool_decide (is_Some (disk w !! path)))).

(** [Chroma(persist_directory=..., embedding_function=...)]: opens the
    collection under the directory, creating an empty one when there is
    none ([get_or_create_collection]).  On the directories of a [World] it
    returns; see the scope of the model at [World]. *)
Definition Chroma_init (persist_directory embedding_function : string)
  : M Chroma :=
  fun w =>
    let d :=
      match disk w !! persist_directory with
      | Some _ => disk w
      | None => <[persist_directory := empty_collection]> (disk w)
      end in
    (set_disk d w,
     Ok {| chroma_directory := persist_directory;
           chroma_embedding := embedding_function |}).

(** Appending entries to the collection of a store. *)
Definition upsert (store : Chroma) (new : list IndexEntry) : M unit :=
  fun w =>
    let c :=
      match disk w !! chroma_directory store with
      | Some c => c
      | None => empty_collection
      end in
    (set_disk
       (<[chroma_directory store :=
            {| stored_embedding_model := stored_embedding_model c;
               entries := entries c ++ new |}]> (disk w)) w,
     Ok tt).

(** The entries made of the documents of a batch and their vectors. *)
Definition batch_entries (batch : list Document) (vectors : list Vec)
  : list IndexEntry :=
  List.map (fun dv => {| entry_doc := fst dv; entry_vec := snd dv |})
    (combine batch vectors).

(** [add_texts] on one batch: one call of the embedding model, then one
    write, which the store refuses for a batch without items. *)
Definition add_texts (store : Chroma) (batch : list Document) : M unit :=
  let* vectors :=
    lift (embed_documents (chroma_embedding store)
            (List.map page_content batch)) in
  if (length vectors =? length batch)%nat
  then
    if nonempty_list batch
    then upsert store (batch_entries batch vectors)
    else raise "ValueError" "Expected IDs to be a non-empty list, got 0 IDs"
  else raise "ValueError" "Unequal lengths for fields: ids, embeddings".

(** The slices of [create_batches]: consecutive runs of at most [size]
    items.  [room] is what the open slice [current] can still take. *)
Fixpoint create_batches_from {A} (size : nat) (l : list A) (room : nat)
    (current : list A) : list (list A) :=
  match l with
  | [] => if nonempty_list current then [current] else []
  | x :: l' =>
      match room with
      | O => current :: create_batches_from size l' (size - 1) [x]
      | S room' => create_batches_from size l' room' (current ++ [x])
      end
  end.

(** [create_batches]: the list in slices when it is longer than the
    largest batch, and else as one batch, also when it is empty. *)
Definition create_batches {A} (l : list A) : list (list A) :=
  let size := Pos.to_nat max_batch_size in
  if (size <? length l)%nat then create_batches_from size l size [] else [l].

Fixpoint add_batches (store : Chroma) (batches : list (list Document))
  : M unit :=
  match batches with
  | [] => ret tt
  | batch :: batches' =>
      do add_texts store batch then add_batches store batches'
  end.

(** [Chroma.from_documents(documents=..., embedding=...,
    persist_directory=...)]: the store is opened first, then the batches
    are embedded and written one after the other.  With no document there
    is one batch, without items, and its write is refused. *)
Definition Chroma_from_documents (documents : list Document)
    (embedding persist_directory : string) : M Chroma :=
  let* store := Chroma_init persist_directory embedding in
  do add_batches store (create_batches documents) then
  ret store.

(** Ranking: insertion from the right, so that of two entries at equal
    distance the one stored first comes first. *)
Fixpoint insert_by (qv : Vec) (e : IndexEntry) (l : list IndexEntry)
  : list IndexEntry :=
  match l with
  | [] => [e]
  | e' :: l' =>
      if Qle_bool (distance qv (entry_vec e)) (distance qv (entry_vec e'))
      then e :: l
      else e' :: insert_by qv e l'
  end.

Definition rank (qv : Vec) (es : list IndexEntry) : list IndexEntry :=
  List.fold_right (insert_by qv) [] es.

(** [store.similarity_search(query, k)]: the query is embedded with the
    store's model and the [k] nearest entries are returned, nearest
    first.  It fails only when the embedding of the query fails: the
    query vector has the dimension of the stored ones (scope of the model
    at [World]). *)
Definition similarity_search (store : Chroma) (query : string) (k : positive)
  : M (list Document) :=
  let* qv := lift (embed_query (chroma_embedding store) query) in
  fun w =>
    (w, Ok (List.map entry_doc
              (firstn (Pos.to_nat k)
                 (rank qv (entries_at w (chroma_directory store)))))).

(** [store.as_retriever(search_kwargs={"k": k})].  The repository passes
    the literal 3; what the library does with a [k] that is not positive is
    not part of the model. *)
Record Retriever := {
  retriever_store : Chroma;
  search_k : positive
}.

Definition as_retriever (store : Chroma) (k : positive) : Retriever :=
  {| retriever_store := store; search_k := k |}.

Definition retriever_invoke (r : Retriever) (query : string)
  : M (list Document) :=
  similarity_search (retriever_store r) query (search_k r).

(** [ChatAnthropic(model=...)]. *)
Record ChatAnthropic := { model : string }.

(** The chat model is called: the prompt is recorded, then the model
    answers or fails. *)
Definition llm_call (llm : ChatAnthropic) (prompt : string) : M string :=
  fun w =>
    ({| disk := disk w; llm_calls := llm_calls w ++ [prompt] |},
     llm_invoke (model llm) prompt).

(** A [RetrievalQA] chain of type "stuff". *)
Record RetrievalQA := {
  chain_llm : ChatAnthropic;
  chain_retriever : Retriever;
  chain_return_source_documents : bool;
  chain_prompt : PromptTemplate
}.

(** [RetrievalQA.from_chain_type(llm=..., chain_type="stuff",
    retriever=..., return_source_documents=...,
    chain_type_kwargs={"prompt": ...})]. *)
Definition RetrievalQA_from_chain_type (llm : ChatAnthropic)
    (retriever : Retriever) (return_source_documents : bool)
    (prompt : PromptTemplate) : RetrievalQA :=
  {| chain_llm := llm;
     chain_retriever := retriever;
     chain_return_source_documents := return_source_documents;
     chain_prompt := prompt |}.

(** The dictionary a chain returns; the key [source_documents] is there
    when the chain was asked for it. *)
Record ChainOutput := {
  out_query : string;
  out_result : string;
  out_source_documents : option (list Document)
}.

(** The context a "stuff" chain puts in the prompt: the texts of the
    documents, in their order, separated by a blank line. *)
Definition stuff_context (docs : list Document) : string :=
  join (newline +:+ newline) (List.map page_content docs).

(** The prompt text for a question and the documents retrieved for it. *)
Definition build_prompt (prompt : PromptTemplate) (question : string)
    (docs : list Document) : result string :=
  prompt_format prompt
    [("context", stuff_context docs); ("question", question)].

(** [chain.invoke({"query": question})]: retrieve, fill the prompt, call
    the chat model once. *)
Definition chain_invoke (chain : RetrievalQA) (question : string)
  : M ChainOutput :=
  let* docs := retriever_invoke (chain_retriever chain) question in
  let* prompt := lift (build_prompt (chain_prompt chain) question docs) in
  let* answer := llm_call (chain_llm chain) prompt in
  ret {| out_query := question;
         out_result := answer;
         out_source_documents :=
           if chain_return_source_documents chain then Some docs else None |}.

(** ** The class [IMF_RAG_System]

    A method takes the object and returns the object after the call.  Each
    method assigns to [self] once, as its last effect, so a call that
    raises leaves the object as it was. *)

Record IMF_RAG_System := {
  pdf_path : string;
  persist_directory : string;
  vectorstore : option Chroma;
  qa_chain : option RetrievalQA;
  llm : ChatAnthropic
}.

(** [IMF_RAG_System(pdf_path, persist_directory)]; the construction of
    the chat model client is taken to return. *)
Definition init (pdf_path persist_directory : string) : IMF_RAG_System :=
  {| pdf_path := pdf_path;
     persist_directory := persist_directory;
     vectorstore := None;
     qa_chain := None;
     llm := {| model := "claude-sonnet-4-20250514" |} |}.

Definition default_persist_directory : string := "./chroma_db".

Definition embedding_model_name : string := "all-MiniLM-L6-v2".

Definition set_vectorstore (self : IMF_RAG_System) (store : Chroma)
  : IMF_RAG_System :=
  {| pdf_path := pdf_path self;
     persist_directory := persist_directory self;
     vectorstore := Some store;
     qa_chain := qa_chain self;
     llm := llm self |}.

Definition set_qa_chain (self : IMF_RAG_System) (chain : RetrievalQA)
  : IMF_RAG_System :=
  {| pdf_path := pdf_path self;
     persist_directory := persist_directory self;
     vectorstore := vectorstore self;
     qa_chain := Some chain;
     llm := llm self |}.

(** [load_and_process_pdf] and [load_existing_vectorstore]: the
    construction of [HuggingFaceEmbeddings(model_name="all-MiniLM-L6-v2")]
    is taken to return, and the model is carried by its name. *)
Definition load_and_process_pdf (self : IMF_RAG_System) : M IMF_RAG_System :=
  let* pages := lift (pdf_load (pdf_path self)) in
  let* chunks := lift (split_documents 1000 200 pages) in
  let* store :=
    Chroma_from_documents chunks embedding_model_name
      (persist_directory self) in
  ret (set_vectorstore self store).

Definition load_existing_vectorstore (self : IMF_RAG_System)
  : M IMF_RAG_System :=
  let* store := Chroma_init (persist_directory self) embedding_model_name in
  ret (set_vectorstore self store).

Definition template_text : string :=
  "You are an expert economic analyst answering questions about the IMF World Economic Outlook report."
  +:+ newline +:+ newline +:+
  "Use the following pieces of context from the report to answer the question at the end."
  +:+ newline +:+
  "If you don't know the answer based on the context, say so - don't make up information."
  +:+ newline +:+
  "Always cite which part of the report your answer comes from when possible."
  +:+ newline +:+ newline +:+
  "Context from IMF Report:"
  +:+ newline +:+
  "{context}"
  +:+ newline +:+ newline +:+
  "Question: {question}"
  +:+ newline +:+ newline +:+
  "Detailed Answer:".

Definition PROMPT : PromptTemplate :=
  {| template := template_text;
     input_variables := ["context"; "question"] |}.

Definition setup_qa_chain (self : IMF_RAG_System) : M IMF_RAG_System :=
  match vectorstore self with
  | None =>
      raise "AttributeError"
        "'NoneType' object has no attribute 'as_retriever'"
  | Some store =>
      ret (set_qa_chain self
             (RetrievalQA_from_chain_type (llm self) (as_retriever store 3)
                true PROMPT))
  end.

(** The dictionary [query] returns. *)
Record QueryResult := {
  answer : string;
  sources : list Document
}.

Definition query (self : IMF_RAG_System) (question : string) : M QueryResult :=
  match qa_chain self with
  | None => raise "Exception" "QA chain not set up. Run setup_qa_chain() first."
  | Some chain =>
      let* result := chain_invoke chain question in
      match out_source_documents result with
      | None => raise "KeyError" "'source_documents'"
      | Some docs => ret {| answer := out_result result; sources := docs |}
      end
  end.

(** ** [main] *)

Definition PDF_PATH : string := "imf_weo_ch1_oct2024.pdf".

(** [main] up to the banner of the interactive mode. *)
Definition main_setup : M IMF_RAG_System :=
  let rag := init PDF_PATH default_persist_directory in
  let* found := os_path_exists (persist_directory rag) in
  let* rag :=
    if found : bool then load_existing_vectorstore rag
    else load_and_process_pdf rag in
  setup_qa_chain rag.

Definition is_quit (question : string) : bool :=
  bool_decide (lower question ∈ ["quit"; "exit"; "q"]).

(** The [while True] loop of [main] over the lines typed at the prompt;
    [input()] raises [EOFError] when there is no line left.  [input()] is
    outside the [try]; the exceptions of [query] that derive from
    [Exception] are printed and the loop goes on. *)
Fixpoint interactive_loop (rag : IMF_RAG_System) (lines : list string)
  : M unit :=
  match lines with
  | [] => raise "EOFError" "EOF when reading a line"
  | line :: lines' =>
      let question := strip line in
      if is_quit question then ret tt
      else if negb (nonempty_string question) then interactive_loop rag lines'
      else
        do try_except (do query rag question then ret tt) (fun _ => ret tt)
        then interactive_loop rag lines'
  end.

Definition main (lines : list string) : M unit :=
  let* rag := main_setup in
  interactive_loop rag lines.

(** ** The states of the object *)

(** The objects a program can hold: a fresh one, or one on which a method
    has returned. *)
Inductive reachable : IMF_RAG_System → Prop :=
| reach_init pdf dir :
    reachable (init pdf dir)
| reach_build self self' w w' :
    reachable self →
    load_and_process_pdf self w = (w', Ok self') →
    reachable self'
| reach_load self self' w w' :
    reachable self →
    load_existing_vectorstore self w = (w', Ok self') →
    reachable self'
| reach_setup self self' w w' :
    reachable self →
    setup_qa_chain self w = (w', Ok self') →
    reachable self'.

(** No index was built or loaded. *)
Definition Unindexed (self : IMF_RAG_System) : Prop :=
  vectorstore self = None.

(** The chain is configured: [query] goes past its guard. *)
Definition Ready (self : IMF_RAG_System) : Prop :=
  reachable self ∧ is_Some (qa_chain self).

(** The call ends by raising an exception of class [cls]. *)
Definition fails_with {A} (cls : string) (out : World * result A) : Prop :=
  ∃ msg, out.2 = Raise (Exn cls msg).

(** The prompt [PROMPT] yields for a question and the retrieved documents. *)
Definition prompt_text (question : string) (docs : list Document) : string :=
  "You are an expert economic analyst answering questions about the IMF World Economic Outlook report."
  +:+ newline +:+ newline +:+
  "Use the following pieces of context from the report to answer the question at the end."
  +:+ newline +:+
  "If you don't know the answer based on the context, say so - don't make up information."
  +:+ newline +:+
  "Always cite which part of the report your answer comes from when possible."
  +:+ newline +:+ newline +:+
  "Context from IMF Report:"
  +:+ newline +:+
  stuff_context docs
  +:+ newline +:+ newline +:+
  "Question: " +:+ question
  +:+ newline +:+ newline +:+
  "Detailed Answer:".

(** The world after one more prompt went to the chat model. *)
Definition prompt_sent (w : World) (prompt : string) : World :=
  {| disk := disk w; llm_calls := llm_calls w ++ [prompt] |}.

(** The store and the chain the methods build for an object. *)
Definition the_store (self : IMF_RAG_System) : Chroma :=
  {| chroma_directory := persist_directory self;
     chroma_embedding := embedding_model_name |}.

Definition the_chain (self : IMF_RAG_System) : RetrievalQA :=
  RetrievalQA_from_chain_type (llm self) (as_retriever (the_store self) 3)
    true PROMPT.

(** The retrieval step of [query] returns [docs]. *)
Definition retrieved (self : IMF_RAG_System) (question : string) (w : World)
    (docs : list Document) : Prop :=
  ∃ chain, qa_chain self = Some chain ∧
    retriever_invoke (chain_retriever chain) question w = (w, Ok docs).

(** Entries in the order of their distance to [qv], nearest first. *)
Definition nearer (qv : Vec) (e1 e2 : IndexEntry) : Prop :=
  (distance qv (entry_vec e1) <= distance qv (entry_vec e2))%Q.

End Pipeline.

(** Suffix and prefix of a text, by length. *)
Definition suffix_of_length (n : nat) (s : string) : string :=
  String.substring (String.length s - n) n s.

Definition prefix_of_length (n : nat) (s : string) : string :=
  String.substring 0 n s.

(** The characters of a run of pieces. *)
Fixpoint total_len (pieces : list string) : Z :=
  match pieces with
  | [] => 0
  | piece :: pieces' => len piece + total_len pieces'
  end.

(** The pieces [kept] can start the next chunk before the piece [next]:
    their text has at most [chunk_overlap] characters and, with [next], at
    most [chunk_size], unless it has no character at all. *)
Definition fits_as_overlap (chunk_size chunk_overlap : Z)
    (kept : list string) (next : string) : Prop :=
  (len (join EmptyString kept) <= chunk_overlap)%Z
  ∧ ((len (join EmptyString kept) + len next <= chunk_size)%Z
     ∨ (len (join EmptyString kept) <= 0)%Z).

(** The earlier group of pieces was closed because the piece [next] did
    not fit in; the later group starts with the longest run of pieces at
    the end of the earlier one that [fits_as_overlap], and goes on with
    [next]. *)
Definition keeps_longest_tail (chunk_size chunk_overlap : Z)
    (g1 g2 : list string) : Prop :=
  ∃ front shared next rest,
    g1 = (front ++ shared)%list
    ∧ g2 = (shared ++ next :: rest)%list
    ∧ (chunk_size < len (join EmptyString g1) + len next)%Z
    ∧ fits_as_overlap chunk_size chunk_overlap shared next
    ∧ ∀ front1 front2,
        front = (front1 ++ front2)%list →
        front2 ≠ [] →
        ¬ fits_as_overlap chunk_size chunk_overlap (front2 ++ shared) next.

(** ** Concrete worlds for the examples *)

Fixpoint repeat_char (c : ascii) (n : nat) : string :=
  match n with
  | O => EmptyString
  | S n' => String c (repeat_char c n')
  end.

(** A page of two paragraphs of 600 characters each. *)
Definition two_paragraphs : string :=
  repeat_char "a" 600 +:+ newline +:+ newline +:+ repeat_char "b" 600.

Definition page (n : Z) (text : string) : Document :=
  {| page_content := text;
     metadata := {[ "page" := PyInt n; "source" := PyStr PDF_PATH ]} |}.

Definition demo_pages : list Document :=
  [ page 0 "Global growth is projected at 3.2 percent in 2024 and 2025.";
    page 1 "Risks to the outlook are tilted to the downside." ].

Definition length_vector (text : string) : Vec :=
  [inject_Z (Z.of_nat (String.length text))].

Definition first_coordinate_distance (a b : Vec) : Q :=
  match a, b with
  | x :: _, y :: _ => Qabs.Qabs (x - y)
  | _, _ => 0%Q
  end.

(** Collaborators that never fail: a two-page report, vectors that
    measure the length of a text. *)
Definition demo_collaborators : Collaborators :=
  {| pdf_load := fun path =>
       if String.eqb path PDF_PATH then Ok demo_pages
       else Raise (Exn "ValueError" "File path is not a valid file or url");
     embed_documents := fun _ texts => Ok (List.map length_vector texts);
     embed_query := fun _ text => Ok (length_vector text);
     distance := first_coordinate_distance;
     llm_invoke := fun _ _ => Ok "Global growth is projected at 3.2 percent.";
     max_batch_size := 2 |}.

Definition three_pages : list Document :=
  [ page 0 "first"; page 1 "second"; page 2 "third" ].

(** Collaborators whose embedding model fails on the batch holding the
    second page; batches hold one text. *)
Definition failing_collaborators : Collaborators :=
  {| pdf_load := fun _ => Ok three_pages;
     embed_documents := fun _ texts =>
       if bool_decide (texts = ["second"])
       then Raise (Exn "RuntimeError" "embedding backend unavailable")
       else Ok (List.map length_vector texts);
     embed_query := fun _ text => Ok (length_vector text);
     distance := first_coordinate_distance;
     llm_invoke := fun _ _ => Ok EmptyString;
     max_batch_size := 1 |}.

Definition empty_world : World := {| disk := ∅; llm_calls := [] |}.

(** A persist directory written with another embedding model. *)
Definition foreign_world : World :=
  {| disk :=
       {[ default_persist_directory :=
            {| stored_embedding_model := Some "text-embedding-3-small";
               entries := [ {| entry_doc := page 0 "first";
                               entry_vec := [1%Q; 0%Q] |} ] |} ]};
     llm_calls := [] |}.

Definition fresh : IMF_RAG_System := init PDF_PATH default_persist_directory.

Definition demo_store : Chroma :=
  {| chroma_directory := default_persist_directory;
     chroma_embedding := embedding_model_name |}.

(** The object and the world [main] reaches from the empty world with the
    two-page report. *)
Definition demo_ready : IMF_RAG_System :=
  set_qa_chain (set_vectorstore fresh demo_store)
    (RetrievalQA_from_chain_type (llm fresh) (as_retriever demo_store 3)
       true PROMPT).

Definition demo_entry (d : Document) : IndexEntry :=
  {| entry_doc := d; entry_vec := length_vector (page_content d) |}.

Definition demo_world : World :=
  {| disk :=
       {[ default_persist_directory :=
            {| stored_embedding_model := None;
               entries := List.map demo_entry demo_pages |} ]};
     llm_calls := [] |}.



(** The same collaborators with a chat model that fails. *)
Definition offline_collaborators : Collaborators :=
  {| pdf_load := @pdf_load demo_collaborators;
     embed_documents := @embed_documents demo_collaborators;
     embed_query := @embed_query demo_collaborators;
     distance := first_coordinate_distance;
     llm_invoke := fun _ _ => Raise (Exn "APIConnectionError" "Connection error.");
     max_batch_size := 2 |}.

(** The same collaborators with a chat model call that is interrupted from
    the keyboard. *)
Definition interrupted_collaborators : Collaborators :=
  {| pdf_load := @pdf_load demo_collaborators;
     embed_documents := @embed_documents demo_collaborators;
     embed_query := @embed_query demo_collaborators;
     distance := first_coordinate_distance;
     llm_invoke := fun _ _ => Raise (Exn "KeyboardInterrupt" EmptyString);
     max_batch_size := 2 |}.

Definition demo_question : string := "What are the main risks to the outlook?".

(** The documents nearest to [demo_question], whose length is 39: the
    second page (48 characters), then the first (59). *)
Definition demo_retrieved : list Document :=
  [ page 1 "Risks to the outlook are tilted to the downside.";
    page 0 "Global growth is projected at 3.2 percent in 2024 and 2025." ].

Definition demo_result : QueryResult :=
  {| answer := "Global growth is projected at 3.2 percent.";
     sources := demo_retrieved |}.

(** ** The object [main] works with, and the questions it asks *)

(** The object after a load or a build and [setup_qa_chain], from a fresh
    one. *)
Definition main_object : IMF_RAG_System :=
  set_qa_chain (set_vectorstore fresh (the_store fresh)) (the_chain fresh).

(** The questions the loop of [main] passes to [query] for the lines typed:
    the lines stripped, up to the first that asks to quit, without the
    blank ones. *)
Fixpoint questions_asked (lines : list string) : list string :=
  match lines with
  | [] => []
  | line :: lines' =>
      let question := strip line in
      if is_quit question then []
      else if negb (nonempty_string question) then questions_asked lines'
      else question :: questions_asked lines'
  end.

(** The world after the loop of [main] put the questions to [query]: a
    query that returns, or that raises an exception the loop catches, is
    followed by the next one; the loop stops at a query that raises
    another exception. *)
Fixpoint ask_all `{Collaborators} (rag : IMF_RAG_System)
    (questions : list string) (w : World) : World :=
  match questions with
  | [] => w
  | question :: questions' =>
      match query rag question w with
      | (w', Ok _) => ask_all rag questions' w'
      | (w', Raise e) =>
          if derives_from_Exception e then ask_all rag questions' w' else w'
      end
  end.

(** ** [simple_demo] of [src/simple_example.py]

    Plain files are a map from paths to contents, apart from the persist
    directories of the world; opening a file for writing always
    succeeds. *)

(** [str(n)] for an integer. *)
Definition str_int (n : Z) : string := NilZero.string_of_int (Z.to_int n).

(** [int(s)] for the texts [str_int] makes. *)
Definition int_str (s : string) : option Z :=
  option_map Z.of_int (NilZero.int_of_string s).

(** The file name for question number [i]. *)
Definition answer_file_name (i : Z) : string :=
  "answer_" +:+ str_int i +:+ ".txt".

(** [doc.metadata.get('page', '?')] as an f-string prints it. *)
Definition page_label (doc : Document) : string :=
  match metadata doc !! "page" with
  | Some (PyInt n) => str_int n
  | Some (PyStr s) => s
  | None => "?"
  end.

(** The two writes for source number [j]. *)
Definition source_block (j : Z) (doc : Document) : string :=
  (newline +:+ "Source " +:+ str_int j +:+ " (Page " +:+ page_label doc
   +:+ "):" +:+ newline)
  +:+ (page_content doc +:+ newline).

(** The writes of [for j, doc in enumerate(sources, j)]. *)
Fixpoint source_blocks (j : Z) (docs : list Document) : string :=
  match docs with
  | [] => EmptyString
  | doc :: docs' => source_block j doc +:+ source_blocks (j + 1) docs'
  end.

(** What is written to the file of a question. *)
Definition answer_file_text (question : string) (result : QueryResult)
  : string :=
  ("Question: " +:+ question +:+ newline +:+ newline)
  +:+ ("Answer:" +:+ newline +:+ answer result +:+ newline +:+ newline)
  +:+ ("Sources:" +:+ newline)
  +:+ source_blocks 1 (sources result).

Definition demo_questions : list string :=
  [ "What is the global economic growth forecast for 2024 and 2025?";
    "What are the main risks mentioned in the report?";
    "What does the report say about inflation?" ].

(** [for i, question in enumerate(questions, i)]: each question is asked
    and its answer saved; an exception of [query] is not caught. *)
Fixpoint ask_and_save `{Collaborators} (rag : IMF_RAG_System) (i : Z)
    (questions : list string) (files : gmap string string) (w : World)
  : gmap string string * World * result unit :=
  match questions with
  | [] => (files, w, Ok tt)
  | question :: questions' =>
      match query rag question w with
      | (w', Ok result) =>
          ask_and_save rag (i + 1) questions'
            (<[answer_file_name i := answer_file_text question result]> files)
            w'
      | (w', Raise e) => (files, w', Raise e)
      end
  end.

(** [simple_demo()]: nothing is done without the PDF; else the object is
    set up by the same statements as in [main] and the three questions are
    asked. *)
Definition simple_demo `{Collaborators} (files : gmap string string)
    (w : World) : gmap string string * World * result unit :=
  match files !! PDF_PATH with
  | None => (files, w, Ok tt)
  | Some _ =>
      match main_setup w with
      | (w', Ok rag) => ask_and_save rag 1 demo_questions files w'
      | (w', Raise e) => (files, w', Raise e)
      end
  end.

(** The files of a directory that holds the PDF and nothing else. *)
Definition demo_files : gmap string string := {[ PDF_PATH := "%PDF" ]}.

(** ** Vocabulary for the properties of the splitter and of the store *)

(** A chunk is not empty and has at most [chunk_size] characters. *)
Definition within_size (chunk_size : Z) (chunk : string) : Prop :=
  (0 < len chunk <= chunk_size)%Z.

(** From [w] to [w'] nothing changed but the collection under [directory],
    which kept its entries, in their places, and may have more after
    them. *)
Definition only_appends (directory : string) (w w' : World) : Prop :=
  llm_calls w' = llm_calls w
  ∧ (∀ d, d ≠ directory → disk w' !! d = disk w !! d)
  ∧ (∃ new, entries_at w' directory = (entries_at w directory ++ new)%list)
  ∧ (∀ c, disk w !! directory = Some c →
          ∃ c', disk w' !! directory = Some c'
                ∧ stored_embedding_model c' = stored_embedding_model c).

(** * Properties *)

Section Properties.

Context `{Collaborators}.

(** ** The states a program reaches *)

Lemma Chroma_init_spec dir emb w :
  ∃ w', Chroma_init dir emb w
        = (w', Ok {| chroma_directory := dir; chroma_embedding := emb |})
    ∧ llm_calls w' = llm_calls w
    ∧ is_Some (disk w' !! dir)
    ∧ entries_at w' dir = entries_at w dir
    ∧ (∀ c, disk w !! dir = Some c → w' = w)
    ∧ (disk w !! dir = None
       → w' = set_disk (<[dir := empty_collection]> (disk w)) w).
Proof.
  unfold Chroma_init, entries_at. destruct w as [d calls]; simpl.
  destruct (d !! dir) as [c|] eqn:E; eexists; repeat split; simpl;
    try done.
  - by rewrite E.
  - rewrite lookup_insert_eq. by eexists.
  - by rewrite lookup_insert_eq.
Qed.

Lemma Chroma_from_documents_store docs emb dir w w' store :
  Chroma_from_documents docs emb dir w = (w', Ok store) →
  store = {| chroma_directory := dir; chroma_embedding := emb |}.
Proof.
  unfold Chroma_from_documents. intros Hrun.
  destruct (Chroma_init_spec dir emb w) as (w1 & Hinit & _).
  unfold bind in Hrun. rewrite Hinit in Hrun.
  destruct (add_batches _ _ w1) as [w2 [u|e]]; unfold ret in Hrun;
    by simplify_eq.
Qed.

Lemma load_and_process_pdf_returns self w w' self' :
  load_and_process_pdf self w = (w', Ok self') →
  self' = set_vectorstore self (the_store self).
Proof.
  unfold load_and_process_pdf, bind, lift, ret. intros Hrun.
  destruct (pdf_load _) as [pages|e]; [|done].
  destruct (split_documents _ _ _) as [chunks|e]; [|done].
  destruct (Chroma_from_documents _ _ _ w) as [w1 [store|e]] eqn:Hbuild;
    [|done].
  apply Chroma_from_documents_store in Hbuild. by simplify_eq.
Qed.

Lemma load_existing_vectorstore_spec self w :
  ∃ w', load_existing_vectorstore self w
        = (w', Ok (set_vectorstore self (the_store self)))
    ∧ (∀ c, disk w !! persist_directory self = Some c → w' = w)
    ∧ (disk w !! persist_directory self = None
       → w' = set_disk
                (<[persist_directory self := empty_collection]> (disk w)) w).
Proof.
  destruct (Chroma_init_spec (persist_directory self) embedding_model_name w)
    as (w' & Hinit & _ & _ & _ & Hsome & Hnone).
  exists w'. unfold load_existing_vectorstore, bind, ret.
  rewrite Hinit. done.
Qed.

(** A reachable object holds, if anything, the store of its directory with
    the fixed embedding model and the chain built on that store. *)
Lemma reachable_shape self :
  reachable self →
  (vectorstore self = None ∨ vectorstore self = Some (the_store self))
  ∧ (qa_chain self = None
     ∨ (qa_chain self = Some (the_chain self)
        ∧ vectorstore self = Some (the_store self))).
Proof.
  induction 1 as [pdf dir
                 | self self' w w' _ IH Hrun
                 | self self' w w' _ IH Hrun
                 | self self' w w' _ IH Hrun].
  - split; by left.
  - apply load_and_process_pdf_returns in Hrun. subst self'.
    destruct IH as [_ [Hq | [Hq _]]]; simpl; split; auto.
  - destruct (load_existing_vectorstore_spec self w) as (w1 & Hload & _).
    rewrite Hload in Hrun. simplify_eq.
    destruct IH as [_ [Hq | [Hq _]]]; simpl; split; auto.
  - unfold setup_qa_chain in Hrun.
    destruct IH as [[Hv | Hv] _]; rewrite Hv in Hrun; [done|].
    unfold ret in Hrun. simplify_eq. simpl. split; auto.
Qed.

Lemma Ready_chain self :
  Ready self →
  qa_chain self = Some (the_chain self)
  ∧ vectorstore self = Some (the_store self).
Proof.
  intros [Hreach [chain Hchain]].
  destruct (reachable_shape self Hreach) as [_ [Hq | Hq]]; [congruence|done].
Qed.

Lemma unindexed_has_no_chain self :
  reachable self → Unindexed self → qa_chain self = None.
Proof.
  intros Hreach Hun. unfold Unindexed in Hun.
  destruct (reachable_shape self Hreach) as [_ [Hq | [_ Hv]]];
    [done | congruence].
Qed.

(** ** The prompt *)

Lemma build_prompt_PROMPT question docs :
  build_prompt PROMPT question docs = Ok (prompt_text question docs).
Proof. reflexivity. Qed.

(** ** Queries *)

Lemma similarity_search_world store question k w w' res :
  similarity_search store question k w = (w', res) → w' = w.
Proof.
  unfold similarity_search, bind, lift. intros Hrun.
  destruct (embed_query _ _); by simplify_eq.
Qed.

Lemma retriever_invoke_world r question w w' res :
  retriever_invoke r question w = (w', res) → w' = w.
Proof. apply similarity_search_world. Qed.

(** What [query] does once the chain is configured: one retrieval, one call
    of the chat model with the prompt built from the retrieved documents,
    and the retrieved documents handed back as they came. *)
Lemma query_Ready self question w :
  Ready self →
  query self question w
  = (let* docs := retriever_invoke (chain_retriever (the_chain self)) question in
     let* text := llm_call (llm self) (prompt_text question docs) in
     ret {| answer := text; sources := docs |}) w.
Proof.
  intros Hready. destruct (Ready_chain self Hready) as [Hchain _].
  unfold query. rewrite Hchain. unfold chain_invoke, bind.
  cbn [the_chain RetrievalQA_from_chain_type chain_retriever chain_prompt
       chain_llm chain_return_source_documents].
  destruct (retriever_invoke _ _ w) as [w1 [docs|e]]; [|done].
  rewrite build_prompt_PROMPT. unfold lift, llm_call, ret.
  destruct (llm_invoke _ _); done.
Qed.

Lemma query_returns_inv self question w w' r :
  Ready self →
  query self question w = (w', Ok r) →
  ∃ docs,
    retrieved self question w docs
    ∧ llm_invoke (model (llm self)) (prompt_text question docs) = Ok (answer r)
    ∧ w' = prompt_sent w (prompt_text question docs)
    ∧ sources r = docs.
Proof.
  intros Hready. rewrite (query_Ready self question w Hready).
  destruct (Ready_chain self Hready) as [Hchain _].
  unfold retrieved, bind.
  destruct (retriever_invoke _ _ w) as [w1 [docs|e]] eqn:Hret; [|done].
  apply retriever_invoke_world in Hret as Hw. subst w1.
  unfold llm_call, ret.
  destruct (llm_invoke _ _) as [text|e] eqn:Hllm; [|done].
  intros Hrun. simplify_eq. exists docs. simpl. eauto 10.
Qed.

(** C1: for a query in the Ready state, [query] returns a result exactly
    when the retrieval returns some documents [docs] and the chat model
    answers the prompt whose context is made of [docs]; the [sources] of
    the result are then [docs] themselves: the same chunks, in the same
    order, none added, dropped or moved. *)
Theorem query_sources_are_retrieved_chunks self question w w' r :
  Ready self →
  query self question w = (w', Ok r) ↔
  ∃ docs,
    retrieved self question w docs
    ∧ llm_invoke (model (llm self)) (prompt_text question docs) = Ok (answer r)
    ∧ w' = prompt_sent w (prompt_text question docs)
    ∧ sources r = docs.
Proof.
  intros Hready. split.
  - by apply query_returns_inv.
  - rewrite (query_Ready self question w Hready).
    destruct (Ready_chain self Hready) as [Hchain _].
    unfold retrieved, bind.
    intros (docs & (chain & Hc & Hret) & Hllm & -> & Hsrc).
    rewrite Hchain in Hc. simplify_eq. rewrite Hret.
    unfold llm_call, ret. rewrite Hllm. destruct r; by simpl in *; subst.
Qed.

(** C5 (amended): a query made while the chain is not configured, as in
    every Unindexed state, raises the plain [Exception] with the message
    "QA chain not set up. Run setup_qa_chain() first." and changes nothing;
    the interactive loop of [main] catches it and goes on with the next
    line. *)
Theorem query_without_chain_raises_plain_exception self question w :
  reachable self →
  Unindexed self ∨ qa_chain self = None →
  query self question w
  = (w, Raise (Exn "Exception"
                 "QA chain not set up. Run setup_qa_chain() first."))
  ∧ ∀ line lines,
      strip line = question →
      is_quit question = false →
      nonempty_string question = true →
      interactive_loop self (line :: lines) w = interactive_loop self lines w.
Proof.
  intros Hreach Hstate.
  assert (qa_chain self = None) as Hnone.
  { destruct Hstate; [by apply unindexed_has_no_chain | done]. }
  assert (query self question w
          = (w, Raise (Exn "Exception"
                         "QA chain not set up. Run setup_qa_chain() first.")))
    as Hquery.
  { unfold query. by rewrite Hnone. }
  split; [done|].
  intros line lines Hstrip Hquit Hnonempty. simpl.
  rewrite Hstrip, Hquit, Hnonempty. simpl.
  unfold bind at 1. unfold try_except. unfold bind at 1.
  by rewrite Hquery.
Qed.

(** ** Ranking *)

Lemma nearer_trans qv e1 e2 e3 :
  nearer qv e1 e2 → nearer qv e2 e3 → nearer qv e1 e3.
Proof. unfold nearer. apply Qle_trans. Qed.

Lemma not_nearer qv e1 e2 :
  Qle_bool (distance qv (entry_vec e1)) (distance qv (entry_vec e2)) = false →
  nearer qv e2 e1.
Proof.
  unfold nearer. intros Hfalse.
  destruct (Qlt_le_dec (distance qv (entry_vec e2)) (distance qv (entry_vec e1)))
    as [Hlt | Hle].
  - by apply Qlt_le_weak.
  - apply Qle_bool_iff in Hle. congruence.
Qed.

Lemma insert_by_Permutation qv e l : insert_by qv e l ≡ₚ e :: l.
Proof.
  induction l as [|e' l IH]; simpl; [done|].
  destruct (Qle_bool _ _); [done|].
  rewrite IH. apply Permutation_swap.
Qed.

Lemma insert_by_sorted qv e l :
  StronglySorted (nearer qv) l → StronglySorted (nearer qv) (insert_by qv e l).
Proof.
  induction 1 as [|e' l Hsorted IH Hall]; simpl.
  - repeat constructor.
  - destruct (Qle_bool _ _) eqn:Hle.
    + apply Qle_bool_iff in Hle.
      constructor; [by constructor|].
      constructor; [done|].
      eapply Forall_impl; [exact Hall|].
      intros x Hx. by apply (nearer_trans qv e e' x).
    + apply not_nearer in Hle.
      constructor; [done|].
      rewrite insert_by_Permutation. by constructor.
Qed.

Lemma rank_Permutation qv es : rank qv es ≡ₚ es.
Proof.
  induction es as [|e es IH]; simpl; [done|].
  by rewrite insert_by_Permutation, IH.
Qed.

Lemma rank_sorted qv es : StronglySorted (nearer qv) (rank qv es).
Proof.
  induction es as [|e es IH]; simpl; [constructor|].
  by apply insert_by_sorted.
Qed.

(** C3 (amended): a query made in the Ready state without a [k] of the
    caller's returns as sources the first 3 entries of the index ranked by
    distance to the question, nearest (most relevant) first; they are
    min(3, size of the index) many, so fewer than 3 when the index holds
    fewer than 3 chunks. *)
Theorem query_sources_default_k self question w w' r :
  Ready self →
  query self question w = (w', Ok r) →
  ∃ qv ranked,
    embed_query embedding_model_name question = Ok qv
    ∧ ranked ≡ₚ entries_at w (persist_directory self)
    ∧ StronglySorted (nearer qv) ranked
    ∧ sources r = List.map entry_doc (firstn 3 ranked)
    ∧ length (sources r)
      = Nat.min 3 (length (entries_at w (persist_directory self))).
Proof.
  intros Hready Hrun.
  apply (query_returns_inv self question w w' r Hready)
    in Hrun as (docs & (chain & Hc & Hret) & _ & _ & Hsrc).
  destruct (Ready_chain self Hready) as [Hchain _].
  rewrite Hchain in Hc. injection Hc as <-.
  unfold retriever_invoke, similarity_search, bind, lift in Hret.
  cbn [the_chain RetrievalQA_from_chain_type chain_retriever as_retriever
       retriever_store search_k the_store chroma_embedding chroma_directory]
    in Hret.
  destruct (embed_query embedding_model_name question) as [qv|e] eqn:Hq;
    [|done].
  injection Hret as Hdocs.
  exists qv, (rank qv (entries_at w (persist_directory self))).
  split; [done|]. split; [apply rank_Permutation|].
  split; [apply rank_sorted|].
  assert (sources r
          = List.map entry_doc
              (firstn 3 (rank qv (entries_at w (persist_directory self)))))
    as Hsources.
  { change (Pos.to_nat 3) with 3%nat in Hdocs. congruence. }
  split; [done|].
  rewrite Hsources, length_map, length_firstn.
  by rewrite (Permutation_length (rank_Permutation qv _)).
Qed.


(** ** Building the index *)

Lemma upsert_spec store new w :
  ∃ w', upsert store new w = (w', Ok tt)
    ∧ is_Some (disk w' !! chroma_directory store)
    ∧ entries_at w' (chroma_directory store)
      = (entries_at w (chroma_directory store) ++ new)%list
    ∧ llm_calls w' = llm_calls w.
Proof.
  unfold upsert, entries_at. eexists. split; [done|]. simpl.
  rewrite lookup_insert_eq. simpl.
  split; [by eexists|]. split; [|done].
  by destruct (disk w !! chroma_directory store).
Qed.

Lemma add_texts_embedded store batch vectors w :
  batch ≠ [] →
  embed_documents (chroma_embedding store) (List.map page_content batch)
  = Ok vectors →
  length vectors = length batch →
  add_texts store batch w = upsert store (batch_entries batch vectors) w.
Proof.
  intros Hbatch Hembed Hlen. unfold add_texts, bind, lift.
  rewrite Hembed, Hlen, Nat.eqb_refl. by destruct batch.
Qed.

(** The slices are not empty; neither are the batches before another. *)
Lemma create_batches_from_nonempty {A} size (l : list A) :
  ∀ room current,
    current ≠ [] ∨ room ≠ 0%nat →
    Forall (fun slice => slice ≠ []) (create_batches_from size l room current).
Proof.
  induction l as [|x l IH]; intros room current Hstate; simpl.
  - destruct current; simpl; [constructor|]. by repeat constructor.
  - destruct room as [|room].
    + destruct Hstate as [Hcurrent | Hroom]; [|done].
      constructor; [done|]. apply IH. by left.
    + apply IH. left. by destruct current.
Qed.

Lemma create_batches_before_nonempty {A} (l : list A) before batch after :
  create_batches l = (before ++ batch :: after)%list →
  Forall (fun slice => slice ≠ []) before.
Proof.
  unfold create_batches.
  destruct (Pos.to_nat max_batch_size <? length l)%nat.
  - intros Heq.
    pose proof (create_batches_from_nonempty (Pos.to_nat max_batch_size) l
                  (Pos.to_nat max_batch_size) []) as Hall.
    rewrite Heq in Hall. apply Forall_app in Hall as [Hall _]; [done|].
    right. lia.
  - intros Heq. destruct before as [|b [|b' before]]; [constructor|..];
      by simplify_list_eq.
Qed.

Lemma add_texts_failed store batch e w :
  embed_documents (chroma_embedding store) (List.map page_content batch)
  = Raise e →
  add_texts store batch w = (w, Raise e).
Proof.
  intros Hembed. unfold add_texts, bind, lift. by rewrite Hembed.
Qed.

(** The batches before a failing one are written, one after the other, and
    the failure of the embedding model comes out as it is. *)
Lemma add_batches_failed store before vectors batch after e w :
  Forall (fun b => b ≠ []) before →
  Forall2 (fun b vs =>
             embed_documents (chroma_embedding store) (List.map page_content b)
             = Ok vs ∧ length vs = length b) before vectors →
  embed_documents (chroma_embedding store) (List.map page_content batch)
  = Raise e →
  is_Some (disk w !! chroma_directory store) →
  ∃ w', add_batches store (before ++ batch :: after) w = (w', Raise e)
    ∧ is_Some (disk w' !! chroma_directory store)
    ∧ entries_at w' (chroma_directory store)
      = (entries_at w (chroma_directory store)
         ++ concat (zip_with batch_entries before vectors))%list
    ∧ llm_calls w' = llm_calls w.
Proof.
  intros Hnonempty Hbefore Hfail. revert w.
  induction Hbefore as [|b vs before vectors [Hembed Hlen] _ IH];
    intros w Hdir; simpl.
  - exists w. unfold bind. rewrite (add_texts_failed _ _ e) by done.
    by rewrite app_nil_r.
  - apply Forall_cons in Hnonempty as [Hb Hnonempty].
    destruct (upsert_spec store (batch_entries b vs) w)
      as (w1 & Hup & Hdir1 & Hentries1 & Hcalls1).
    destruct (IH Hnonempty w1 Hdir1)
      as (w' & Hrun & Hdir' & Hentries' & Hcalls').
    exists w'. unfold bind at 1.
    rewrite (add_texts_embedded _ _ vs) by done. rewrite Hup.
    split; [done|]. split; [done|]. split; [|congruence].
    by rewrite Hentries', Hentries1, <- app_assoc.
Qed.

(** C9 (amended): when the embedding model fails on some batch of a build,
    [load_and_process_pdf] ends with the model's own exception, as raised;
    no [vectorstore] is assigned; and the persist directory exists after
    the call, holding next to what it held before the entries of the
    batches that came before the failing one. *)
Theorem failed_build_keeps_earlier_batches
    self w pages chunks before vectors batch after e :
  pdf_load (pdf_path self) = Ok pages →
  split_documents 1000 200 pages = Ok chunks →
  create_batches chunks = (before ++ batch :: after)%list →
  Forall2 (fun b vs =>
             embed_documents embedding_model_name (List.map page_content b)
             = Ok vs ∧ length vs = length b) before vectors →
  embed_documents embedding_model_name (List.map page_content batch)
  = Raise e →
  ∃ w', load_and_process_pdf self w = (w', Raise e)
    ∧ is_Some (disk w' !! persist_directory self)
    ∧ entries_at w' (persist_directory self)
      = (entries_at w (persist_directory self)
         ++ concat (zip_with batch_entries before vectors))%list
    ∧ llm_calls w' = llm_calls w.
Proof.
  intros Hload Hsplit Hbatches Hbefore Hfail.
  destruct (Chroma_init_spec (persist_directory self) embedding_model_name w)
    as (w1 & Hinit & Hcalls1 & Hdir1 & Hentries1 & _).
  destruct (add_batches_failed (the_store self) before vectors batch after e w1)
    as (w' & Hrun & Hdir' & Hentries' & Hcalls');
    [by eapply create_batches_before_nonempty|done..|].
  exists w'. unfold load_and_process_pdf, bind, lift.
  rewrite Hload, Hsplit. unfold Chroma_from_documents, bind.
  rewrite Hinit, Hbatches. unfold the_store in Hrun. rewrite Hrun.
  simpl in *. split; [done|]. split; [done|]. split; congruence.
Qed.

(** ** Loading *)


(** The prompt that goes to the chat model in a query. *)
Lemma query_prompt_sent self question w docs :
  Ready self →
  retrieved self question w docs →
  llm_calls (query self question w).1
  = (llm_calls w ++ [prompt_text question docs])%list.
Proof.
  intros Hready (chain & Hc & Hret).
  rewrite (query_Ready self question w Hready).
  destruct (Ready_chain self Hready) as [Hchain _].
  rewrite Hchain in Hc. injection Hc as <-.
  unfold bind. rewrite Hret. unfold llm_call, ret.
  by destruct (llm_invoke _ _).
Qed.

End Properties.

(** C10: on an object in the Unindexed state (its [vectorstore] is [None],
    as after construction) [setup_qa_chain] raises [AttributeError], from
    reading [as_retriever] off [None]; nothing checks that an index was
    built or loaded first. *)
Theorem setup_qa_chain_unindexed_raises_AttributeError self w :
  Unindexed self →
  setup_qa_chain self w
  = (w, Raise (Exn "AttributeError"
                 "'NoneType' object has no attribute 'as_retriever'")).
Proof.
  unfold Unindexed, setup_qa_chain. by intros ->.
Qed.

Lemma setup_qa_chain_unindexed_witness :
  Unindexed fresh
  ∧ setup_qa_chain fresh empty_world
    = (empty_world,
       Raise (Exn "AttributeError"
                "'NoneType' object has no attribute 'as_retriever'")).
Proof.
  split; [reflexivity|].
  apply (setup_qa_chain_unindexed_raises_AttributeError fresh empty_world).
  reflexivity.
Defined.

(** C4: the prompt is a function of the question and of the ordered chunks
    alone.  Two queries with the same question for which the same chunks
    were retrieved in the same order send the same prompt text, character
    for character, whatever the chat model, the embedding model, the object
    and the world of each. *)
Theorem prompt_is_function_of_question_and_chunks
    (one other : Collaborators) self1 self2 w1 w2 question docs :
  @Ready one self1 →
  @Ready other self2 →
  @retrieved one self1 question w1 docs →
  @retrieved other self2 question w2 docs →
  llm_calls (@query one self1 question w1).1
  = (llm_calls w1 ++ [prompt_text question docs])%list
  ∧ llm_calls (@query other self2 question w2).1
    = (llm_calls w2 ++ [prompt_text question docs])%list
  ∧ build_prompt PROMPT question docs = Ok (prompt_text question docs).
Proof.
  intros Hready1 Hready2 Hret1 Hret2.
  split; [by apply @query_prompt_sent|].
  split; [by apply @query_prompt_sent|].
  apply build_prompt_PROMPT.
Qed.

(** C6 (amended): loading never compares identifiers of embedding models.
    Whatever identifier is stored with the persisted index, also one that
    differs from the configured all-MiniLM-L6-v2,
    [load_existing_vectorstore] raises nothing, leaves the stored index as
    it is and returns a store that embeds queries with the configured
    model. *)
Theorem load_ignores_stored_embedding_model self w c id :
  disk w !! persist_directory self = Some c →
  stored_embedding_model c = Some id →
  id ≠ embedding_model_name →
  load_existing_vectorstore self w
  = (w, Ok (set_vectorstore self
              {| chroma_directory := persist_directory self;
                 chroma_embedding := embedding_model_name |})).
Proof.
  intros Hdir _ _.
  destruct (load_existing_vectorstore_spec self w) as (w' & Hload & Hsome & _).
  by rewrite Hload, (Hsome c Hdir).
Qed.

(** * The text splitter *)

Section Splitting.

Variables (chunk_size chunk_overlap : Z).
Hypothesis overlap_nonneg : (0 <= chunk_overlap)%Z.

Lemma len_append s1 s2 : len (s1 +:+ s2) = (len s1 + len s2)%Z.
Proof.
  unfold len. induction s1 as [|c s1 IH].
  - reflexivity.
  - change (String c s1 +:+ s2) with (String c (s1 +:+ s2)).
    cbn [String.length]. rewrite !Nat2Z.inj_succ. lia.
Qed.

Lemma total_len_app l1 l2 :
  total_len (l1 ++ l2) = (total_len l1 + total_len l2)%Z.
Proof. induction l1 as [|piece l1 IH]; simpl; lia. Qed.

Lemma len_join_empty pieces :
  len (join EmptyString pieces) = total_len pieces.
Proof.
  unfold join. induction pieces as [|piece pieces IH]; [done|].
  destruct pieces as [|piece' pieces].
  - simpl. lia.
  - change (String.concat EmptyString (piece :: piece' :: pieces))
      with (piece +:+ EmptyString
            +:+ String.concat EmptyString (piece' :: pieces)).
    rewrite !len_append, IH. simpl total_len. unfold len at 2. simpl. lia.
Qed.

Lemma zero_separator (b : bool) : (if b then 0 else 0)%Z = 0%Z.
Proof. by destruct b. Qed.

Lemma pop_front_unfold current_doc total len_d separator_len :
  pop_front chunk_size chunk_overlap current_doc total len_d separator_len
  = if ((total >? chunk_overlap)
        || ((total + len_d
             + (if nonempty_list current_doc then separator_len else 0)
             >? chunk_size) && (total >? 0)))%Z
    then
      match current_doc with
      | [] => Raise (Exn "IndexError" "list index out of range")
      | first :: others =>
          pop_front chunk_size chunk_overlap others
            (total - (len first
                      + (if more_than_one current_doc
                         then separator_len else 0)))%Z
            len_d separator_len
      end
    else Ok (current_doc, total).
Proof. by destruct current_doc. Qed.

(** The [while] loop ends, on the longest tail of the pieces that fits as
    overlap before the next piece. *)
Lemma pop_front_longest d current_doc :
  ∃ front kept,
    pop_front chunk_size chunk_overlap current_doc (total_len current_doc)
      (len d) 0
    = Ok (kept, total_len kept)
    ∧ current_doc = (front ++ kept)%list
    ∧ fits_as_overlap chunk_size chunk_overlap kept d
    ∧ ∀ front1 front2,
        front = (front1 ++ front2)%list →
        front2 ≠ [] →
        ¬ fits_as_overlap chunk_size chunk_overlap (front2 ++ kept) d.
Proof.
  unfold fits_as_overlap.
  induction current_doc as [|first others IH]; rewrite pop_front_unfold.
  - exists [], []. simpl.
    assert ((0 >? chunk_overlap)%Z = false) as ->
      by (rewrite Z.gtb_ltb; apply Z.ltb_ge; lia).
    simpl. rewrite andb_false_r. split; [done|]. split; [done|].
    split; [unfold len; simpl; lia|].
    intros front1 front2 Heq Hne. by destruct front1, front2.
  - cbn [nonempty_list].
    destruct ((total_len (first :: others) >? chunk_overlap)
              || _)%Z eqn:Hcond.
    + destruct IH as (front & kept & Hrun & Happ & Hfits & Hlongest).
      exists (first :: front), kept.
      rewrite zero_separator.
      replace (total_len (first :: others) - (len first + 0))%Z
        with (total_len others) by (simpl; lia).
      rewrite Hrun. split; [done|]. split; [by rewrite Happ|].
      split; [done|].
      intros front1 front2 Heq Hne. destruct front1 as [|f front1].
      * simpl in Heq. subst front2.
        change ((first :: front) ++ kept)%list
          with (first :: (front ++ kept))%list.
        rewrite <- Happ, len_join_empty.
        rewrite !Z.gtb_ltb in Hcond.
        apply orb_true_iff in Hcond as [Hcond | Hcond].
        -- apply Z.ltb_lt in Hcond. lia.
        -- apply andb_true_iff in Hcond as [Hsize Hpos].
           apply Z.ltb_lt in Hsize. apply Z.ltb_lt in Hpos. lia.
      * injection Heq as _ Heq. by apply (Hlongest front1 front2).
    + exists [], (first :: others).
      split; [done|]. split; [done|]. rewrite len_join_empty.
      rewrite !Z.gtb_ltb in Hcond.
      apply orb_false_iff in Hcond as [Hgt Hroom].
      apply Z.ltb_ge in Hgt. split.
      * split; [done|].
        apply andb_false_iff in Hroom as [Hroom | Hroom];
          apply Z.ltb_ge in Hroom; lia.
      * intros front1 front2 Heq Hne. by destruct front1, front2.
Qed.

(** The groups of pieces joined by one run of the loop of [_merge_splits]
    with the empty separator: the first starts with [current_doc], and each
    one after it starts with the tail kept from the one before. *)
Lemma merge_loop_overlap splits :
  ∀ current_doc,
  ∃ first groups rest,
    merge_loop chunk_size chunk_overlap splits current_doc
      (total_len current_doc) 0
    = Ok (first :: groups)
    ∧ first = (current_doc ++ rest)%list
    ∧ ∀ i g1 g2,
        (first :: groups) !! i = Some g1 →
        (first :: groups) !! S i = Some g2 →
        keeps_longest_tail chunk_size chunk_overlap g1 g2.
Proof.
  induction splits as [|d splits IH]; intros current_doc.
  - exists current_doc, [], []. simpl.
    split; [done|]. split; [by rewrite app_nil_r|].
    intros i g1 g2 _ Hnext. by destruct i.
  - assert (∀ cur,
              (total_len cur
               + (len d + (if more_than_one (cur ++ [d]) then 0 else 0)))%Z
              = total_len (cur ++ [d])) as Htotal.
    { intros cur. rewrite zero_separator, total_len_app. simpl. lia. }
    assert (∃ first groups rest,
              merge_loop chunk_size chunk_overlap splits (current_doc ++ [d])
                (total_len current_doc
                 + (len d
                    + (if more_than_one (current_doc ++ [d]) then 0 else 0)))%Z
                0
              = Ok (first :: groups)
              ∧ first = (current_doc ++ rest)%list
              ∧ ∀ i g1 g2,
                  (first :: groups) !! i = Some g1 →
                  (first :: groups) !! S i = Some g2 →
                  keeps_longest_tail chunk_size chunk_overlap g1 g2)
      as Hplain.
    { rewrite Htotal.
      destruct (IH (current_doc ++ [d])%list)
        as (first & groups & rest & Hrun & Hfirst & Hchain).
      exists first, groups, (d :: rest).
      split; [done|]. split; [by rewrite Hfirst, <- app_assoc|done]. }
    simpl merge_loop.
    destruct (total_len current_doc + len d
              + (if nonempty_list current_doc then 0 else 0)
              >? chunk_size)%Z eqn:Hover; [|exact Hplain].
    destruct current_doc as [|piece pieces]; [exact Hplain|].
    cbn [nonempty_list] in *.
    destruct (pop_front_longest d (piece :: pieces))
      as (front & kept & Hpop & Happ & Hfits & Hlongest).
    rewrite Hpop. cbn [result_bind fst snd]. rewrite Htotal.
    destruct (IH (kept ++ [d])%list)
      as (first & groups & rest & Hrun & Hfirst & Hchain).
    rewrite Hrun. cbn [result_bind].
    exists (piece :: pieces), (first :: groups), [].
    split; [done|]. split; [by rewrite app_nil_r|].
    intros [|i] g1 g2 Hg1 Hg2.
    + simpl in Hg1, Hg2. simplify_eq.
      exists front, kept, d, rest.
      split; [done|]. split; [by rewrite <- app_assoc|].
      split; [|done].
      rewrite len_join_empty. rewrite Z.gtb_ltb in Hover.
      apply Z.ltb_lt in Hover. lia.
    + by apply (Hchain i).
Qed.

(** C2 (amended): of two consecutive groups of pieces that one merging
    pass joins into chunks within a page, the earlier one was closed
    because the next piece did not fit within [chunk_size], and the later
    one starts with the longest run of whole pieces at the end of the
    earlier one whose text has at most [chunk_overlap] characters (200 in
    the code) and leaves room for that next piece, then goes on with it.
    So the shared text has at most [chunk_overlap] characters, and exactly
    that many only when a piece boundary falls there; it is taken before
    the chunks lose the white space at their ends.  The pass always ends,
    and its chunks are the groups joined and stripped. *)
Theorem merged_chunks_share_at_most_chunk_overlap splits :
  ∃ groups,
    merge_loop chunk_size chunk_overlap splits [] 0 0 = Ok groups
    ∧ merge_splits chunk_size chunk_overlap splits EmptyString
      = Ok (omap (join_docs EmptyString) groups)
    ∧ ∀ i g1 g2,
        groups !! i = Some g1 →
        groups !! S i = Some g2 →
        keeps_longest_tail chunk_size chunk_overlap g1 g2.
Proof.
  destruct (merge_loop_overlap splits [])
    as (first & groups & rest & Hrun & _ & Hchain).
  simpl total_len in Hrun.
  exists (first :: groups). split; [done|]. split; [|done].
  unfold merge_splits. change (len EmptyString) with 0%Z. by rewrite Hrun.
Qed.

End Splitting.

(** * Concrete runs *)

Lemma fresh_reachable `{Collaborators} : reachable fresh.
Proof. apply reach_init. Qed.

Lemma demo_ready_Ready `{Collaborators} : Ready demo_ready.
Proof.
  split; [|by eexists].
  apply (reach_setup (set_vectorstore fresh demo_store) demo_ready
           demo_world demo_world); [|reflexivity].
  apply (reach_load fresh (set_vectorstore fresh demo_store)
           demo_world demo_world); [apply reach_init|].
  vm_compute. reflexivity.
Qed.

(** From the empty world, [main] builds the index of the two-page report
    and configures the chain. *)
Example main_setup_demo :
  @main_setup demo_collaborators empty_world = (demo_world, Ok demo_ready).
Proof. vm_compute. reflexivity. Qed.

Example query_demo :
  @query demo_collaborators demo_ready demo_question demo_world
  = (prompt_sent demo_world (prompt_text demo_question demo_retrieved),
     Ok demo_result).
Proof. vm_compute. reflexivity. Qed.

Lemma query_sources_are_retrieved_chunks_witness :
  ∃ docs,
    @retrieved demo_collaborators demo_ready demo_question demo_world docs
    ∧ @llm_invoke demo_collaborators (model (llm demo_ready))
        (prompt_text demo_question docs) = Ok (answer demo_result)
    ∧ prompt_sent demo_world (prompt_text demo_question demo_retrieved)
      = prompt_sent demo_world (prompt_text demo_question docs)
    ∧ sources demo_result = docs.
Proof.
  apply (@query_sources_are_retrieved_chunks demo_collaborators demo_ready
           demo_question demo_world
           (prompt_sent demo_world (prompt_text demo_question demo_retrieved))
           demo_result).
  - apply demo_ready_Ready.
  - vm_compute. reflexivity.
Defined.

(** C3, as stated, fails on an index of two chunks: the query returns two
    sources, not three. *)
Lemma query_sources_default_k_counterexample :
  @Ready demo_collaborators demo_ready
  ∧ @query demo_collaborators demo_ready demo_question demo_world
    = (prompt_sent demo_world (prompt_text demo_question demo_retrieved),
       Ok demo_result)
  ∧ length (sources demo_result) ≠ 3.
Proof.
  split; [apply demo_ready_Ready|].
  split; [vm_compute; reflexivity|].
  vm_compute. discriminate.
Qed.

Lemma query_sources_default_k_witness :
  ∃ qv ranked,
    @embed_query demo_collaborators embedding_model_name demo_question = Ok qv
    ∧ ranked ≡ₚ entries_at demo_world (persist_directory demo_ready)
    ∧ StronglySorted (@nearer demo_collaborators qv) ranked
    ∧ sources demo_result = List.map entry_doc (firstn 3 ranked)
    ∧ length (sources demo_result)
      = Nat.min 3 (length (entries_at demo_world (persist_directory demo_ready))).
Proof.
  apply (@query_sources_default_k demo_collaborators demo_ready demo_question
           demo_world
           (prompt_sent demo_world (prompt_text demo_question demo_retrieved))
           demo_result).
  - apply demo_ready_Ready.
  - vm_compute. reflexivity.
Defined.

Lemma prompt_is_function_of_question_and_chunks_witness :
  llm_calls (@query demo_collaborators demo_ready demo_question demo_world).1
  = (llm_calls demo_world ++ [prompt_text demo_question demo_retrieved])%list
  ∧ llm_calls (@query offline_collaborators demo_ready demo_question
                 demo_world).1
    = (llm_calls demo_world ++ [prompt_text demo_question demo_retrieved])%list
  ∧ build_prompt PROMPT demo_question demo_retrieved
    = Ok (prompt_text demo_question demo_retrieved).
Proof.
  apply (prompt_is_function_of_question_and_chunks
           demo_collaborators offline_collaborators demo_ready demo_ready
           demo_world demo_world demo_question demo_retrieved).
  - apply demo_ready_Ready.
  - apply demo_ready_Ready.
  - eexists. split; [reflexivity|]. vm_compute. reflexivity.
  - eexists. split; [reflexivity|]. vm_compute. reflexivity.
Defined.

(** C5, as stated, fails on a fresh object: the exception is of class
    [Exception], not [InvalidState]. *)
Lemma query_unindexed_counterexample :
  Unindexed fresh
  ∧ @query demo_collaborators fresh demo_question empty_world
    = (empty_world,
       Raise (Exn "Exception"
                "QA chain not set up. Run setup_qa_chain() first."))
  ∧ ¬ fails_with "InvalidState"
        (@query demo_collaborators fresh demo_question empty_world).
Proof.
  split; [reflexivity|]. split; [reflexivity|].
  intros [msg Hmsg]. vm_compute in Hmsg. discriminate.
Qed.

Lemma query_without_chain_witness :
  @query demo_collaborators fresh demo_question empty_world
  = (empty_world,
     Raise (Exn "Exception"
              "QA chain not set up. Run setup_qa_chain() first."))
  ∧ ∀ line lines,
      strip line = demo_question →
      is_quit demo_question = false →
      nonempty_string demo_question = true →
      @interactive_loop demo_collaborators fresh (line :: lines) empty_world
      = @interactive_loop demo_collaborators fresh lines empty_world.
Proof.
  apply (@query_without_chain_raises_plain_exception demo_collaborators
           fresh demo_question empty_world).
  - apply fresh_reachable.
  - left. reflexivity.
Defined.

(** The loop of [main] on an object without a chain: the failed query is
    passed over and the session ends on the next line, [quit]. *)
Example interactive_loop_recovers :
  @interactive_loop demo_collaborators fresh [demo_question; "quit"]
    empty_world
  = (empty_world, Ok tt).
Proof. vm_compute. reflexivity. Qed.

(** C6, as stated, fails on a directory written with another embedding
    model: the load returns normally. *)
Lemma load_mismatch_counterexample :
  (∃ c, disk foreign_world !! persist_directory fresh = Some c
        ∧ stored_embedding_model c = Some "text-embedding-3-small"
        ∧ "text-embedding-3-small" ≠ embedding_model_name)
  ∧ load_existing_vectorstore fresh foreign_world
    = (foreign_world, Ok (set_vectorstore fresh demo_store))
  ∧ ¬ fails_with "EmbeddingModelMismatch"
        (load_existing_vectorstore fresh foreign_world).
Proof.
  split.
  { eexists. split; [vm_compute; reflexivity|]. split; [reflexivity|].
    discriminate. }
  split; [vm_compute; reflexivity|].
  intros [msg Hmsg]. vm_compute in Hmsg. discriminate.
Qed.

Lemma load_ignores_stored_embedding_model_witness :
  load_existing_vectorstore fresh foreign_world
  = (foreign_world,
     Ok (set_vectorstore fresh
           {| chroma_directory := persist_directory fresh;
              chroma_embedding := embedding_model_name |})).
Proof.
  apply (load_ignores_stored_embedding_model fresh foreign_world
           {| stored_embedding_model := Some "text-embedding-3-small";
              entries := [ {| entry_doc := page 0 "first";
                              entry_vec := [1%Q; 0%Q] |} ] |}
           "text-embedding-3-small").
  - vm_compute. reflexivity.
  - reflexivity.
  - discriminate.
Defined.





(** C9, as stated, fails when the embedding model fails on the second of
    three batches: the exception is the model's [RuntimeError], and the
    entry of the first batch stays in the persist directory. *)
Lemma failed_build_counterexample :
  ∃ w', @load_and_process_pdf failing_collaborators fresh empty_world
        = (w', Raise (Exn "RuntimeError" "embedding backend unavailable"))
    ∧ ¬ fails_with "EmbeddingFailure"
          (@load_and_process_pdf failing_collaborators fresh empty_world)
    ∧ is_Some (disk w' !! persist_directory fresh)
    ∧ entries_at w' (persist_directory fresh)
      = [ {| entry_doc := page 0 "first";
             entry_vec := length_vector "first" |} ].
Proof.
  eexists. split; [vm_compute; reflexivity|].
  split.
  { intros [msg Hmsg]. vm_compute in Hmsg. discriminate. }
  split; [by eexists|]. vm_compute. reflexivity.
Qed.

Lemma failed_build_keeps_earlier_batches_witness :
  ∃ w', @load_and_process_pdf failing_collaborators fresh empty_world
        = (w', Raise (Exn "RuntimeError" "embedding backend unavailable"))
    ∧ is_Some (disk w' !! persist_directory fresh)
    ∧ entries_at w' (persist_directory fresh)
      = (entries_at empty_world (persist_directory fresh)
         ++ concat (zip_with batch_entries [[page 0 "first"]]
                      [[length_vector "first"]]))%list
    ∧ llm_calls w' = llm_calls empty_world.
Proof.
  apply (@failed_build_keeps_earlier_batches failing_collaborators fresh
           empty_world three_pages three_pages
           [[page 0 "first"]] [[length_vector "first"]]
           [page 1 "second"] [[page 2 "third"]]).
  - reflexivity.
  - vm_compute. reflexivity.
  - vm_compute. reflexivity.
  - constructor; [|constructor]. split; reflexivity.
  - reflexivity.
Defined.

(** C2, as stated, fails on a page of two paragraphs of 600 characters:
    the page is cut between the paragraphs, and the last 200 characters of
    the first chunk are not the first 200 of the second. *)
Lemma overlap_counterexample :
  split_documents 1000 200 [page 0 two_paragraphs]
  = Ok [page 0 (repeat_char "a" 600); page 0 (repeat_char "b" 600)]
  ∧ suffix_of_length 200 (repeat_char "a" 600)
    ≠ prefix_of_length 200 (repeat_char "b" 600).
Proof.
  split; [vm_compute; reflexivity|].
  intros Heq. vm_compute in Heq. discriminate.
Qed.

(** A later group that starts afresh although the last piece of the
    earlier one would fit as overlap is not what a merging pass gives. *)
Example fresh_start_is_not_the_longest_tail :
  ¬ keeps_longest_tail 10 5 ["aaaa"; "bbbb"] ["cccc"].
Proof.
  intros (front & shared & next & rest & Hg1 & Hg2 & _ & _ & Hmax).
  destruct shared as [|s shared].
  - simpl in Hg2. injection Hg2 as <- <-. rewrite app_nil_r in Hg1.
    subst front. apply (Hmax ["aaaa"] ["bbbb"]); [done..|].
    vm_compute. split; [discriminate|left; discriminate].
  - by destruct shared.
Qed.

Lemma merged_chunks_share_witness :
  ∃ groups,
    merge_loop 10 5 ["aaa"; " bbb"; " ccc"; " ddd"] [] 0 0 = Ok groups
    ∧ merge_splits 10 5 ["aaa"; " bbb"; " ccc"; " ddd"] EmptyString
      = Ok (omap (join_docs EmptyString) groups)
    ∧ ∀ i g1 g2,
        groups !! i = Some g1 →
        groups !! S i = Some g2 →
        keeps_longest_tail 10 5 g1 g2.
Proof.
  apply (merged_chunks_share_at_most_chunk_overlap 10 5).
  lia.
Defined.

(** With pieces of four characters and an overlap of five, consecutive
    chunks share one piece; with single characters as pieces they share
    exactly the overlap. *)
Example split_text_words :
  split_text 10 5 "aaa bbb ccc ddd"
  = Ok ["aaa bbb"; "bbb ccc"; "ccc ddd"].
Proof. vm_compute. reflexivity. Qed.

Example split_text_characters :
  split_text 10 3 "abcdefghijklmnopq"
  = Ok ["abcdefghij"; "hijklmnopq"].
Proof. vm_compute. reflexivity. Qed.

(** * The rest of the code *)

Section Session.

Context `{Collaborators}.

(** ** What a query does to the world *)

Lemma chain_invoke_effect chain question w :
  disk (chain_invoke chain question w).1 = disk w
  ∧ (llm_calls (chain_invoke chain question w).1 = llm_calls w
     ∨ ∃ prompt,
         llm_calls (chain_invoke chain question w).1
         = (llm_calls w ++ [prompt])%list).
Proof.
  unfold chain_invoke, bind.
  destruct (retriever_invoke _ _ w) as [w1 [docs|e]] eqn:Hret;
    apply retriever_invoke_world in Hret as ->; [|by auto].
  unfold lift. destruct (build_prompt _ _ _) as [prompt|e]; [|by auto].
  unfold llm_call, ret. destruct (llm_invoke _ _); simpl; eauto.
Qed.

Lemma query_effect self question w :
  disk (query self question w).1 = disk w
  ∧ (llm_calls (query self question w).1 = llm_calls w
     ∨ ∃ prompt,
         llm_calls (query self question w).1
         = (llm_calls w ++ [prompt])%list).
Proof.
  unfold query. destruct (qa_chain self) as [chain|]; [|by auto].
  pose proof (chain_invoke_effect chain question w) as Heffect.
  unfold bind. destruct (chain_invoke chain question w) as [w1 [out|e]];
    [|done].
  by destruct (out_source_documents out).
Qed.

(** X1: a query never writes to the index, whatever the state of the
    object and whatever its outcome, and it calls the chat model at most
    once; without a configured chain it leaves the whole world as it
    is. *)
Theorem query_reads_the_index_only self question w :
  disk (query self question w).1 = disk w
  ∧ (llm_calls (query self question w).1 = llm_calls w
     ∨ ∃ prompt,
         llm_calls (query self question w).1
         = (llm_calls w ++ [prompt])%list)
  ∧ (qa_chain self = None → (query self question w).1 = w).
Proof.
  destruct (query_effect self question w) as [Hdisk Hcalls].
  split; [done|]. split; [done|].
  intros Hnone. unfold query. by rewrite Hnone.
Qed.

(** ** The interactive loop *)

Lemma interactive_loop_world rag lines :
  ∀ w,
    (interactive_loop rag lines w).1 = ask_all rag (questions_asked lines) w.
Proof.
  induction lines as [|line lines IH]; intros w; [done|].
  simpl. destruct (is_quit (strip line)); [done|].
  destruct (nonempty_string (strip line)); simpl; [|apply IH].
  unfold bind at 1, try_except, bind at 1, ret.
  destruct (query rag (strip line) w) as [w1 [r|e]]; simpl; [apply IH|].
  destruct (derives_from_Exception e); [apply IH|done].
Qed.

(** X2: the world after the loop of [main] is the world after the
    questions typed were put to [query] one after the other: the lines are
    stripped, blank lines are passed over, nothing after the first
    quit, exit or q is read, a query that fails with an exception
    deriving from [Exception] is passed over like one that succeeds, and
    the loop stops at a query that raises any other exception. *)
Theorem interactive_loop_asks_the_questions_typed rag lines w :
  (interactive_loop rag lines w).1 = ask_all rag (questions_asked lines) w.
Proof. apply interactive_loop_world. Qed.


Lemma asking_keeps_disk rag questions :
  ∀ w,
    disk (ask_all rag questions w) = disk w
    ∧ (length (llm_calls (ask_all rag questions w))
       ≤ length (llm_calls w) + length questions)%nat.
Proof.
  induction questions as [|question questions IH]; intros w; simpl.
  - split; [done|lia].
  - destruct (query_effect rag question w) as [Hdisk1 Hcalls1].
    assert (length (llm_calls (query rag question w).1)
            ≤ length (llm_calls w) + 1)%nat as Hone.
    { destruct Hcalls1 as [-> | [prompt ->]]; [lia|].
      rewrite length_app. simpl. lia. }
    destruct (query rag question w) as [w1 [r|e]]; simpl in *.
    + destruct (IH w1) as [Hdisk Hcalls]. split; [congruence|lia].
    + destruct (derives_from_Exception e).
      * destruct (IH w1) as [Hdisk Hcalls]. split; [congruence|lia].
      * split; [done|lia].
Qed.

(** X4: the loop of [main] never writes to the index, and it calls the
    chat model at most once for each question typed. *)
Theorem interactive_loop_keeps_the_index rag lines w :
  disk (interactive_loop rag lines w).1 = disk w
  ∧ (length (llm_calls (interactive_loop rag lines w).1)
     ≤ length (llm_calls w) + length (questions_asked lines))%nat.
Proof.
  rewrite interactive_loop_world. apply asking_keeps_disk.
Qed.

End Session.

(** ** The size of the chunks *)

Section ChunkSize.

Variables (chunk_size chunk_overlap : Z).
Hypothesis overlap_nonneg : (0 <= chunk_overlap)%Z.
Hypothesis size_above_one : (1 < chunk_size)%Z.

Lemma len_nonneg s : (0 <= len s)%Z.
Proof. unfold len. lia. Qed.

Lemma total_len_nonneg pieces : (0 <= total_len pieces)%Z.
Proof.
  induction pieces as [|piece pieces IH]; simpl; [lia|].
  pose proof (len_nonneg piece). lia.
Qed.

Lemma len_String c s : len (String c s) = (1 + len s)%Z.
Proof. unfold len. cbn [String.length]. lia. Qed.

Lemma len_lstrip s : (len (lstrip s) <= len s)%Z.
Proof.
  induction s as [|c s IH]; simpl; [lia|].
  destruct (is_space c); rewrite ?len_String; lia.
Qed.

Lemma len_rstrip s : (len (rstrip s) <= len s)%Z.
Proof.
  induction s as [|c s IH]; [simpl; lia|].
  cbn [rstrip]. rewrite (len_String c s).
  destruct (rstrip s) as [|c' r].
  - destruct (is_space c); rewrite ?len_String; unfold len in *; simpl in *;
      lia.
  - rewrite (len_String c (String c' r)). lia.
Qed.

Lemma len_strip s : (len (strip s) <= len s)%Z.
Proof.
  unfold strip. pose proof (len_rstrip (lstrip s)). pose proof (len_lstrip s).
  lia.
Qed.

Lemma nonempty_string_len s : nonempty_string s = true → (0 < len s)%Z.
Proof.
  destruct s; [done|]. intros _. rewrite len_String.
  pose proof (len_nonneg s). lia.
Qed.

(** The [while] loop ends on a tail of the pieces that leaves room for the
    next piece. *)
Lemma pop_front_room len_d current_doc :
  (len_d <= chunk_size)%Z →
  ∃ kept,
    pop_front chunk_size chunk_overlap current_doc (total_len current_doc)
      len_d 0
    = Ok (kept, total_len kept)
    ∧ (total_len kept + len_d <= chunk_size)%Z.
Proof.
  intros Hd.
  induction current_doc as [|first others IH]; rewrite pop_front_unfold.
  - exists []. simpl.
    assert ((0 >? chunk_overlap)%Z = false) as ->
      by (rewrite Z.gtb_ltb; apply Z.ltb_ge; lia).
    simpl. rewrite andb_false_r. split; [done|lia].
  - destruct ((total_len (first :: others) >? chunk_overlap)
              || _)%Z eqn:Hcond.
    + destruct IH as (kept & Hrun & Hle).
      exists kept. rewrite zero_separator.
      replace (total_len (first :: others) - (len first + 0))%Z
        with (total_len others) by (simpl; lia).
      by rewrite Hrun.
    + exists (first :: others). split; [done|].
      apply orb_false_iff in Hcond as [_ Hroom].
      pose proof (total_len_nonneg (first :: others)) as Hnonneg.
      apply andb_false_iff in Hroom as [Hroom | Hzero].
      * rewrite Z.gtb_ltb in Hroom. apply Z.ltb_ge in Hroom.
        cbn [nonempty_list] in Hroom. lia.
      * rewrite Z.gtb_ltb in Hzero. apply Z.ltb_ge in Hzero. lia.
Qed.

(** One run of the loop of [_merge_splits] over pieces that fit ends, and
    every group it joins fits. *)
Lemma merge_loop_sized splits :
  Forall (fun piece => (len piece <= chunk_size)%Z) splits →
  ∀ current_doc,
    (total_len current_doc <= chunk_size)%Z →
    ∃ groups,
      merge_loop chunk_size chunk_overlap splits current_doc
        (total_len current_doc) 0
      = Ok groups
      ∧ Forall (fun group => (total_len group <= chunk_size)%Z) groups.
Proof.
  induction 1 as [|d splits Hd _ IH]; intros current_doc Hcur.
  - exists [current_doc]. split; [done|]. by constructor.
  - assert (∀ cur,
              (total_len cur
               + (len d + (if more_than_one (cur ++ [d]) then 0 else 0)))%Z
              = total_len (cur ++ [d])) as Htotal.
    { intros cur. rewrite zero_separator, total_len_app. simpl. lia. }
    assert (∀ cur, total_len (cur ++ [d]) = (total_len cur + len d)%Z)
      as Hsnoc.
    { intros cur. rewrite total_len_app. simpl. lia. }
    simpl merge_loop.
    destruct (total_len current_doc + len d
              + (if nonempty_list current_doc then 0 else 0)
              >? chunk_size)%Z eqn:Hover.
    + destruct current_doc as [|piece pieces].
      * cbn [nonempty_list]. rewrite Htotal. apply IH.
        rewrite Hsnoc. simpl. lia.
      * cbn [nonempty_list].
        destruct (pop_front_room (len d) (piece :: pieces) Hd)
          as (kept & Hpop & Hroom).
        rewrite Hpop. cbn [result_bind fst snd]. rewrite Htotal.
        destruct (IH (kept ++ [d])%list) as (groups & Hrun & Hall).
        { rewrite Hsnoc. lia. }
        rewrite Hrun. cbn [result_bind].
        exists ((piece :: pieces) :: groups). split; [done|].
        by constructor.
    + rewrite Z.gtb_ltb in Hover. apply Z.ltb_ge in Hover.
      rewrite zero_separator in Hover. rewrite Htotal. apply IH.
      rewrite Hsnoc. lia.
Qed.

Lemma join_docs_sized group text :
  (total_len group <= chunk_size)%Z →
  join_docs EmptyString group = Some text →
  within_size chunk_size text.
Proof.
  unfold join_docs, within_size. intros Hgroup Hjoin.
  destruct (nonempty_string (strip (join EmptyString group))) eqn:Hne;
    [|done].
  injection Hjoin as <-.
  pose proof (nonempty_string_len _ Hne).
  pose proof (len_strip (join EmptyString group)) as Hstrip.
  rewrite len_join_empty in Hstrip. lia.
Qed.

Lemma merge_splits_sized splits :
  Forall (fun piece => (len piece <= chunk_size)%Z) splits →
  ∃ chunks,
    merge_splits chunk_size chunk_overlap splits EmptyString = Ok chunks
    ∧ Forall (within_size chunk_size) chunks.
Proof.
  intros Hsplits.
  destruct (merge_loop_sized splits Hsplits []) as (groups & Hrun & Hall).
  { simpl. lia. }
  simpl total_len in Hrun. unfold merge_splits.
  change (len EmptyString) with 0%Z. rewrite Hrun. cbn [result_bind].
  eexists. split; [done|].
  clear Hrun. induction Hall as [|group groups Hgroup _ IHgroups];
    [constructor|].
  cbn [omap list_omap].
  destruct (join_docs EmptyString group) as [text|] eqn:Hjoin; [|done].
  constructor; [|done]. by apply (join_docs_sized group).
Qed.

(** The loop of [_split_text]: when the pieces that are too long can be
    split further, or when there is none, the loop ends and its chunks
    fit. *)
Lemma split_loop_sized recur splits :
  match recur with
  | None => Forall (fun piece => (len piece < chunk_size)%Z) splits
  | Some f =>
      ∀ piece, ∃ chunks, f piece = Ok chunks
                         ∧ Forall (within_size chunk_size) chunks
  end →
  ∀ good_splits,
    Forall (fun piece => (len piece <= chunk_size)%Z) good_splits →
    ∃ chunks,
      split_loop chunk_size chunk_overlap recur splits good_splits = Ok chunks
      ∧ Forall (within_size chunk_size) chunks.
Proof.
  intros Hrecur.
  induction splits as [|s splits IH]; intros good_splits Hgood.
  - simpl. destruct (nonempty_list good_splits).
    + by apply merge_splits_sized.
    + exists []. split; [done|constructor].
  - assert (match recur with
            | None => Forall (fun piece => (len piece < chunk_size)%Z) splits
            | Some f =>
                ∀ piece, ∃ chunks, f piece = Ok chunks
                                   ∧ Forall (within_size chunk_size) chunks
            end) as Hrest.
    { destruct recur; [done|]. by inversion Hrecur. }
    specialize (IH Hrest).
    simpl split_loop. destruct (len s <? chunk_size)%Z eqn:Hlt.
    + apply IH. apply Forall_app. split; [done|].
      constructor; [|constructor].
      rewrite Z.ltb_lt in Hlt. lia.
    + assert (∃ merged,
                (if nonempty_list good_splits
                 then merge_splits chunk_size chunk_overlap good_splits
                        EmptyString
                 else Ok []) = Ok merged
                ∧ Forall (within_size chunk_size) merged)
        as (merged & -> & Hmerged).
      { destruct (nonempty_list good_splits).
        - by apply merge_splits_sized.
        - exists []. split; [done|constructor]. }
      cbn [result_bind].
      assert (∃ here,
                match recur with
                | None => Ok [s]
                | Some f => f s
                end = Ok here
                ∧ Forall (within_size chunk_size) here)
        as (here & -> & Hhere).
      { destruct recur as [f|]; [apply Hrecur|].
        inversion Hrecur as [|? ? Hs]. subst.
        rewrite Z.ltb_ge in Hlt. lia. }
      cbn [result_bind].
      destruct (IH []) as (more & -> & Hmore); [constructor|].
      cbn [result_bind]. eexists. split; [done|].
      apply Forall_app. split; [done|]. by apply Forall_app.
Qed.

Lemma chars_len text :
  Forall (fun piece => (len piece < chunk_size)%Z)
    (List.filter nonempty_string (chars text)).
Proof.
  induction text as [|c text IH]; simpl; [constructor|].
  constructor; [|done]. rewrite len_String. unfold len. simpl. lia.
Qed.

(** [_split_text] with separators of which the last is the empty one. *)
Lemma split_text_rec_sized separators :
  last separators = Some EmptyString →
  ∀ text,
    ∃ chunks,
      split_text_rec chunk_size chunk_overlap separators text = Ok chunks
      ∧ Forall (within_size chunk_size) chunks.
Proof.
  induction separators as [|s new_separators IH]; [done|].
  intros Hlast text. simpl split_text_rec.
  destruct (nonempty_string s) eqn:Hs; cbn [negb].
  - assert (nonempty_list new_separators = true
            ∧ last new_separators = Some EmptyString) as [Hne Hlast'].
    { destruct new_separators as [|s' seps]; [|done].
      simpl in Hlast. injection Hlast as ->. done. }
    rewrite Hne. destruct (contains s text).
    + apply split_loop_sized; [|constructor].
      intros piece. by apply IH.
    + by apply IH.
  - destruct s; [|done].
    apply split_loop_sized; [|constructor].
    unfold split_text_with_regex. cbn [nonempty_string]. apply chars_len.
Qed.

(** X5: with an overlap that is not negative and a chunk size above one,
    splitting a text always ends, and every chunk is not empty and has at
    most [chunk_size] characters (1000 for the chunks the code makes). *)
Theorem split_text_chunks_within_chunk_size text :
  ∃ chunks,
    split_text chunk_size chunk_overlap text = Ok chunks
    ∧ Forall (within_size chunk_size) chunks.
Proof. by apply split_text_rec_sized. Qed.

Lemma split_documents_sized documents :
  ∃ chunks,
    split_documents chunk_size chunk_overlap documents = Ok chunks
    ∧ Forall (fun chunk =>
                within_size chunk_size (page_content chunk)
                ∧ ∃ doc, doc ∈ documents ∧ metadata chunk = metadata doc)
        chunks.
Proof.
  induction documents as [|doc documents (more & Hmore & Hsized)].
  - exists []. split; [done|constructor].
  - destruct (split_text_rec_sized default_separators eq_refl
                (page_content doc)) as (chunks & Hsplit & Hchunks).
    simpl. unfold split_text. rewrite Hsplit, Hmore. cbn [result_bind].
    eexists. split; [done|]. apply Forall_app. split.
    + apply Forall_map. eapply Forall_impl; [exact Hchunks|].
      intros chunk Hchunk. simpl. split; [done|].
      exists doc. split; [constructor|done].
    + eapply Forall_impl; [exact Hsized|].
      intros chunk (Hchunk & d & Hd & Hmeta). split; [done|].
      exists d. split; [by constructor|done].
Qed.

(** X6: the pages are split one by one, in their order: every chunk has
    the metadata of a page, so carries its page number, and the chunks of
    pages put end to end are the chunks of the first ones followed by the
    chunks of the others; no chunk holds text of two pages. *)
Theorem split_documents_page_by_page documents1 documents2 :
  ∃ chunks1 chunks2,
    split_documents chunk_size chunk_overlap documents1 = Ok chunks1
    ∧ split_documents chunk_size chunk_overlap documents2 = Ok chunks2
    ∧ split_documents chunk_size chunk_overlap (documents1 ++ documents2)
      = Ok (chunks1 ++ chunks2)%list
    ∧ Forall (fun chunk =>
                within_size chunk_size (page_content chunk)
                ∧ ∃ doc, doc ∈ documents1 ∧ metadata chunk = metadata doc)
        chunks1.
Proof.
  destruct (split_documents_sized documents1) as (chunks1 & Hsplit1 & Hsized1).
  destruct (split_documents_sized documents2) as (chunks2 & Hsplit2 & _).
  exists chunks1, chunks2. split; [done|]. split; [done|]. split; [|done].
  clear Hsized1. revert chunks1 Hsplit1.
  induction documents1 as [|doc documents1 IH]; intros chunks1 Hsplit1.
  - simpl in Hsplit1. by injection Hsplit1 as <-.
  - simpl in *.
    destruct (split_text chunk_size chunk_overlap (page_content doc))
      as [chunks|e]; [|done].
    cbn [result_bind] in *.
    destruct (split_documents chunk_size chunk_overlap documents1)
      as [more|e]; [|done].
    cbn [result_bind] in *. injection Hsplit1 as <-.
    rewrite (IH more eq_refl). cbn [result_bind].
    by rewrite <- app_assoc.
Qed.

End ChunkSize.

(** ** Building the index, and what [main] does before the loop *)

Section Building.

Context `{Collaborators}.

Lemma only_appends_refl directory w : only_appends directory w w.
Proof.
  split; [done|]. split; [done|]. split; [|by eauto].
  exists []. by rewrite app_nil_r.
Qed.

Lemma only_appends_trans directory w1 w2 w3 :
  only_appends directory w1 w2 →
  only_appends directory w2 w3 →
  only_appends directory w1 w3.
Proof.
  intros (Hcalls1 & Hother1 & (new1 & Hnew1) & Hmodel1)
         (Hcalls2 & Hother2 & (new2 & Hnew2) & Hmodel2).
  split; [congruence|]. split.
  { intros d Hd. rewrite Hother2, Hother1; done. }
  split.
  { exists (new1 ++ new2)%list. by rewrite Hnew2, Hnew1, <- app_assoc. }
  intros c Hc. destruct (Hmodel1 c Hc) as (c' & Hc' & Heq').
  destruct (Hmodel2 c' Hc') as (c'' & Hc'' & Heq'').
  exists c''. split; [done|congruence].
Qed.

Lemma Chroma_init_appends dir emb w :
  only_appends dir w (Chroma_init dir emb w).1.
Proof.
  destruct (Chroma_init_spec dir emb w)
    as (w' & Hinit & Hcalls & _ & Hentries & Hsome & Hnone).
  rewrite Hinit. simpl. split; [done|]. split; [|split].
  - intros d Hd. destruct (disk w !! dir) as [c|] eqn:Hdir.
    + by rewrite (Hsome c).
    + rewrite (Hnone eq_refl). simpl. by rewrite lookup_insert_ne.
  - exists []. by rewrite app_nil_r.
  - intros c Hc. rewrite (Hsome c Hc). eauto.
Qed.

Lemma upsert_appends store new w :
  only_appends (chroma_directory store) w (upsert store new w).1.
Proof.
  destruct (upsert_spec store new w) as (w' & Hup & _ & Hentries & Hcalls).
  rewrite Hup. simpl. split; [done|]. split; [|split; [by eauto|]].
  - intros d Hd. unfold upsert in Hup. injection Hup as <-. simpl.
    by rewrite lookup_insert_ne.
  - intros c Hc. unfold upsert in Hup. injection Hup as <-. simpl.
    rewrite lookup_insert_eq, Hc. eauto.
Qed.

Lemma add_texts_appends store batch w :
  only_appends (chroma_directory store) w (add_texts store batch w).1.
Proof.
  unfold add_texts, bind, lift.
  destruct (embed_documents _ _) as [vectors|e];
    [|apply only_appends_refl].
  destruct (length vectors =? length batch)%nat;
    [|apply only_appends_refl].
  destruct (nonempty_list batch);
    [apply upsert_appends | apply only_appends_refl].
Qed.

Lemma add_batches_appends store batches :
  ∀ w, only_appends (chroma_directory store) w (add_batches store batches w).1.
Proof.
  induction batches as [|batch batches IH]; intros w;
    [apply only_appends_refl|].
  simpl. unfold bind.
  pose proof (add_texts_appends store batch w) as Hfirst.
  destruct (add_texts store batch w) as [w1 [u|e]]; [|done].
  eapply only_appends_trans; [exact Hfirst|apply IH].
Qed.

Lemma Chroma_from_documents_appends docs emb dir w :
  only_appends dir w (Chroma_from_documents docs emb dir w).1
  ∧ is_Some (disk (Chroma_from_documents docs emb dir w).1 !! dir).
Proof.
  unfold Chroma_from_documents, bind.
  pose proof (Chroma_init_appends dir emb w) as Hinit.
  destruct (Chroma_init_spec dir emb w) as (w1 & Heq & _ & Hdir & _).
  rewrite Heq in *. simpl in Hinit.
  pose proof (add_batches_appends
                {| chroma_directory := dir; chroma_embedding := emb |}
                (create_batches docs) w1) as Hadd.
  simpl in Hadd.
  assert (is_Some (disk (add_batches
                           {| chroma_directory := dir;
                              chroma_embedding := emb |}
                           (create_batches docs) w1).1 !! dir)) as Hdir'.
  { destruct Hdir as [c Hc]. destruct Hadd as (_ & _ & _ & Hmodel).
    destruct (Hmodel c Hc) as (c' & Hc' & _). by exists c'. }
  destruct (add_batches _ _ w1) as [w2 [u|e]]; simpl in *;
    (split; [by eapply only_appends_trans|done]).
Qed.

Lemma build_only_appends_aux self w :
  only_appends (persist_directory self) w (load_and_process_pdf self w).1.
Proof.
  unfold load_and_process_pdf, bind, lift.
  destruct (pdf_load _) as [pages|e]; [|apply only_appends_refl].
  destruct (split_documents _ _ _) as [chunks|e]; [|apply only_appends_refl].
  pose proof (Chroma_from_documents_appends chunks embedding_model_name
                (persist_directory self) w) as [Happ _].
  by destruct (Chroma_from_documents _ _ _ w) as [w1 [store|e]].
Qed.

(** X7: whatever its outcome, [load_and_process_pdf] changes nothing in
    the world but the collection under the object's own persist directory,
    and there it only adds entries after those already stored: no entry is
    removed, moved or rewritten, other directories stay as they are, and
    the chat model is not called. *)
Theorem build_only_appends_to_own_directory self w :
  only_appends (persist_directory self) w (load_and_process_pdf self w).1.
Proof. apply build_only_appends_aux. Qed.

(** The slices of [create_batches], put end to end, are the list. *)
Lemma create_batches_from_concat {A} size (l : list A) :
  ∀ room current,
    concat (create_batches_from size l room current) = (current ++ l)%list.
Proof.
  induction l as [|x l IH]; intros room current; simpl.
  - destruct current; simpl; by rewrite ?app_nil_r.
  - destruct room as [|room]; simpl; rewrite IH; [done|].
    by rewrite <- app_assoc.
Qed.

Lemma create_batches_concat {A} (l : list A) : concat (create_batches l) = l.
Proof.
  unfold create_batches.
  destruct (Pos.to_nat max_batch_size <? length l)%nat.
  - apply create_batches_from_concat.
  - simpl. by rewrite app_nil_r.
Qed.

Lemma batch_entries_docs batch :
  ∀ vectors,
    length vectors = length batch →
    List.map entry_doc (batch_entries batch vectors) = batch.
Proof.
  unfold batch_entries.
  induction batch as [|doc batch IH]; intros [|v vectors] Hlen;
    simpl in *; try done.
  f_equal. apply IH. lia.
Qed.

Lemma add_batches_returns store batches :
  ∀ w w' u,
    add_batches store batches w = (w', Ok u) →
    ∃ new,
      entries_at w' (chroma_directory store)
      = (entries_at w (chroma_directory store) ++ new)%list
      ∧ List.map entry_doc new = concat batches.
Proof.
  induction batches as [|batch batches IH]; intros w w' u Hrun; simpl in *.
  - unfold ret in Hrun. injection Hrun as <-.
    exists []. by rewrite app_nil_r.
  - unfold bind in Hrun.
    destruct (add_texts store batch w) as [w1 [u1|e]] eqn:Hadd; [|done].
    unfold add_texts, bind, lift in Hadd.
    destruct (embed_documents _ _) as [vectors|e]; [|done].
    destruct (length vectors =? length batch)%nat eqn:Hlen; [|done].
    apply Nat.eqb_eq in Hlen.
    destruct (nonempty_list batch); [|done].
    destruct (upsert_spec store (batch_entries batch vectors) w)
      as (w1' & Hup & _ & Hentries & _).
    rewrite Hup in Hadd. injection Hadd as <-.
    destruct (IH w1' w' u Hrun) as (new & Hnew & Hdocs).
    exists (batch_entries batch vectors ++ new)%list. split.
    + by rewrite Hnew, Hentries, <- app_assoc.
    + by rewrite map_app, batch_entries_docs, Hdocs.
Qed.

Lemma build_returns_aux self self' w w' :
  load_and_process_pdf self w = (w', Ok self') →
  ∃ pages chunks new,
    pdf_load (pdf_path self) = Ok pages
    ∧ split_documents 1000 200 pages = Ok chunks
    ∧ entries_at w' (persist_directory self)
      = (entries_at w (persist_directory self) ++ new)%list
    ∧ List.map entry_doc new = chunks
    ∧ Forall (fun chunk => within_size 1000 (page_content chunk)) chunks
    ∧ self' = set_vectorstore self (the_store self).
Proof.
  intros Hrun.
  pose proof (load_and_process_pdf_returns self w w' self' Hrun) as Hself.
  unfold load_and_process_pdf, bind, lift in Hrun.
  destruct (pdf_load _) as [pages|e]; [|done].
  destruct (split_documents 1000 200 pages) as [chunks|e] eqn:Hsplit;
    [|done].
  unfold Chroma_from_documents, bind in Hrun.
  destruct (Chroma_init_spec (persist_directory self) embedding_model_name w)
    as (w1 & Hinit & _ & _ & Hentries1 & _).
  rewrite Hinit in Hrun.
  destruct (add_batches _ _ w1) as [w2 [u|e]] eqn:Hadd; [|done].
  unfold ret in Hrun. injection Hrun as <- _.
  apply add_batches_returns in Hadd as (new & Hnew & Hdocs). simpl in *.
  rewrite create_batches_concat in Hdocs.
  exists pages, chunks, new. split; [done|]. split; [done|].
  split; [congruence|]. split; [done|]. split; [|done].
  destruct (split_documents_sized 1000 200 ltac:(lia) ltac:(lia) pages)
    as (chunks1 & Hs1 & Hsized).
  rewrite Hsplit in Hs1. injection Hs1 as <-.
  eapply Forall_impl; [exact Hsized|]. by intros chunk [Hchunk _].
Qed.

(** X8: when [load_and_process_pdf] returns, the pages were loaded and
    split, every chunk went into the object's persist directory once,
    after the entries already there and in the order of the document,
    each with at least 1 and at most 1000 characters, and the object's
    [vectorstore] is the store of that directory. *)
Theorem build_indexes_every_chunk_in_order self self' w w' :
  load_and_process_pdf self w = (w', Ok self') →
  ∃ pages chunks new,
    pdf_load (pdf_path self) = Ok pages
    ∧ split_documents 1000 200 pages = Ok chunks
    ∧ entries_at w' (persist_directory self)
      = (entries_at w (persist_directory self) ++ new)%list
    ∧ List.map entry_doc new = chunks
    ∧ Forall (fun chunk => within_size 1000 (page_content chunk)) chunks
    ∧ self' = set_vectorstore self (the_store self).
Proof. apply build_returns_aux. Qed.

End Building.

Section MainSetup.

Context `{Collaborators}.

Lemma setup_after_vectorstore self store w :
  setup_qa_chain (set_vectorstore self store) w
  = (w, Ok (set_qa_chain (set_vectorstore self store)
              (RetrievalQA_from_chain_type (llm self) (as_retriever store 3)
                 true PROMPT))).
Proof. done. Qed.

Lemma main_setup_found w :
  is_Some (disk w !! default_persist_directory) →
  main_setup w = (w, Ok main_object).
Proof.
  intros Hdir. unfold main_setup, bind at 1, os_path_exists.
  cbn [persist_directory init].
  rewrite bool_decide_eq_true_2 by done.
  destruct (load_existing_vectorstore_spec fresh w) as (w' & Hload & Hsame & _).
  destruct Hdir as [c Hc]. rewrite (Hsame c Hc) in Hload.
  unfold bind. fold fresh. by rewrite Hload.
Qed.

Lemma main_setup_not_found w :
  disk w !! default_persist_directory = None →
  main_setup w
  = (let* rag := load_and_process_pdf fresh in setup_qa_chain rag) w.
Proof.
  intros Hdir. unfold main_setup, bind at 1, os_path_exists.
  cbn [persist_directory init].
  rewrite Hdir. rewrite bool_decide_eq_false_2; [done|]. by intros [c Hc].
Qed.

Lemma main_object_Ready : Ready main_object.
Proof.
  split; [|by eexists].
  apply (reach_setup (set_vectorstore fresh (the_store fresh)) main_object
           empty_world empty_world); [|done].
  destruct (load_existing_vectorstore_spec fresh empty_world)
    as (w' & Hload & _).
  by apply (reach_load fresh _ empty_world w'); [apply reach_init|].
Qed.

Lemma main_setup_returns_aux w w' rag :
  main_setup w = (w', Ok rag) →
  rag = main_object
  ∧ Ready rag
  ∧ is_Some (disk w' !! default_persist_directory)
  ∧ only_appends default_persist_directory w w'.
Proof.
  intros Hrun.
  destruct (disk w !! default_persist_directory) as [c|] eqn:Hdir.
  - rewrite main_setup_found in Hrun by eauto. injection Hrun as <- <-.
    split; [done|]. split; [apply main_object_Ready|].
    split; [by eauto|apply only_appends_refl].
  - rewrite main_setup_not_found in Hrun by done. unfold bind in Hrun.
    pose proof (build_only_appends_aux fresh w) as Happ.
    pose proof (Chroma_from_documents_appends) as Hfrom.
    destruct (load_and_process_pdf fresh w) as [w1 [rag1|e]] eqn:Hbuild;
      [|done].
    pose proof (load_and_process_pdf_returns fresh w w1 rag1 Hbuild) as ->.
    rewrite setup_after_vectorstore in Hrun. injection Hrun as <- <-.
    split; [done|]. split; [apply main_object_Ready|]. split; [|done].
    unfold load_and_process_pdf, bind, lift in Hbuild.
    destruct (pdf_load _) as [pages|e]; [|done].
    destruct (split_documents _ _ _) as [chunks|e]; [|done].
    destruct (Hfrom chunks embedding_model_name (persist_directory fresh) w)
      as [_ Hsome].
    destruct (Chroma_from_documents _ _ _ w) as [w2 [store|e]]; [|done].
    unfold ret in Hbuild. by injection Hbuild as <-.
Qed.

Lemma main_setup_fails_aux w w' e :
  main_setup w = (w', Raise e) →
  disk w !! default_persist_directory = None
  ∧ load_and_process_pdf fresh w = (w', Raise e).
Proof.
  intros Hrun.
  destruct (disk w !! default_persist_directory) as [c|] eqn:Hdir.
  - rewrite main_setup_found in Hrun by eauto. done.
  - split; [done|].
    rewrite main_setup_not_found in Hrun by done. unfold bind in Hrun.
    destruct (load_and_process_pdf fresh w) as [w1 [rag1|e1]] eqn:Hbuild;
      [|done].
    pose proof (load_and_process_pdf_returns fresh w w1 rag1 Hbuild) as ->.
    by rewrite setup_after_vectorstore in Hrun.
Qed.

(** X10: whenever the first part of [main] returns, the object is the same
    one, Ready, with the chain searching the default directory; that
    directory exists; and nothing in the world changed but, at most,
    entries added to it. *)
Theorem main_setup_returns_ready_object w w' rag :
  main_setup w = (w', Ok rag) →
  rag = main_object
  ∧ Ready rag
  ∧ is_Some (disk w' !! default_persist_directory)
  ∧ only_appends default_persist_directory w w'.
Proof. apply main_setup_returns_aux. Qed.

(** X11: after a build or a load that returned, [setup_qa_chain] returns
    too: the [vectorstore] it reads is the store of the object's persist
    directory, the chain is built on it and the world is left as it
    is. *)
Theorem setup_qa_chain_returns_after_load_or_build self self1 w w1 :
  load_and_process_pdf self w = (w1, Ok self1)
  ∨ load_existing_vectorstore self w = (w1, Ok self1) →
  vectorstore self1 = Some (the_store self)
  ∧ setup_qa_chain self1 w1 = (w1, Ok (set_qa_chain self1 (the_chain self))).
Proof.
  intros Hrun.
  assert (self1 = set_vectorstore self (the_store self)) as ->.
  { destruct Hrun as [Hrun | Hrun].
    - by apply load_and_process_pdf_returns in Hrun.
    - destruct (load_existing_vectorstore_spec self w) as (w' & Hload & _).
      rewrite Hload in Hrun. by injection Hrun. }
  split; [done|]. by rewrite setup_after_vectorstore.
Qed.

(** X12: when the embedding model fails on a batch of the first build, the
    persist directory stays in place with the entries of the batches
    before; a next run of [main] that returns has found it and has not
    built again: it leaves the world as the failed build left it, and its
    queries are served from those entries. *)
Theorem failed_build_is_loaded_by_next_run
    w pages chunks before vectors batch after e :
  pdf_load PDF_PATH = Ok pages →
  split_documents 1000 200 pages = Ok chunks →
  create_batches chunks = (before ++ batch :: after)%list →
  Forall2 (fun b vs =>
             embed_documents embedding_model_name (List.map page_content b)
             = Ok vs ∧ length vs = length b) before vectors →
  embed_documents embedding_model_name (List.map page_content batch)
  = Raise e →
  ∃ w', load_and_process_pdf fresh w = (w', Raise e)
    ∧ is_Some (disk w' !! default_persist_directory)
    ∧ ∀ w'' rag,
        main_setup w' = (w'', Ok rag) →
        w'' = w'
        ∧ rag = main_object
        ∧ entries_at w'' default_persist_directory
          = (entries_at w default_persist_directory
             ++ concat (zip_with batch_entries before vectors))%list.
Proof.
  intros Hload Hsplit Hbatches Hbefore Hfail.
  destruct (Chroma_init_spec default_persist_directory embedding_model_name w)
    as (w1 & Hinit & _ & Hdir1 & Hentries1 & _).
  destruct (add_batches_failed (the_store fresh) before vectors batch after e
              w1)
    as (w' & Hrun & Hdir' & Hentries' & _);
    [by eapply create_batches_before_nonempty|done..|].
  exists w'. split; [|split; [done|]].
  - unfold load_and_process_pdf, bind, lift.
    cbn [pdf_path persist_directory fresh init].
    rewrite Hload, Hsplit. unfold Chroma_from_documents, bind.
    fold default_persist_directory. rewrite Hinit, Hbatches.
    unfold the_store in Hrun. cbn [persist_directory fresh init] in Hrun.
    fold default_persist_directory in Hrun. by rewrite Hrun.
  - intros w'' rag Hsetup.
    rewrite main_setup_found in Hsetup by done.
    injection Hsetup as <- <-. split; [done|]. split; [done|].
    simpl in Hentries'. congruence.
Qed.

End MainSetup.

(** X9: when the persist directory holds an index, the first part of
    [main] does not depend on the PDF, on the embedding model or on the
    chat model: it is the same whatever these collaborators would answer;
    and when it returns, the world is as it was: nothing was embedded or
    written again. *)
Theorem main_setup_loads_an_existing_index (one other : Collaborators) w :
  is_Some (disk w !! default_persist_directory) →
  @main_setup one w = @main_setup other w
  ∧ ∀ w' rag,
      @main_setup one w = (w', Ok rag) →
      w' = w ∧ rag = main_object ∧ @Ready one rag.
Proof.
  intros Hdir.
  rewrite (@main_setup_found one w Hdir), (@main_setup_found other w Hdir).
  split; [done|]. intros w' rag [= <- <-].
  split; [done|]. split; [done|apply main_object_Ready].
Qed.

(** ** The states of the object, and where the sources come from *)

Section States.

Context `{Collaborators}.

Lemma reachable_llm self :
  reachable self → llm self = {| model := "claude-sonnet-4-20250514" |}.
Proof.
  induction 1 as [pdf dir
                 | self self' w w' _ IH Hrun
                 | self self' w w' _ IH Hrun
                 | self self' w w' _ IH Hrun].
  - done.
  - apply load_and_process_pdf_returns in Hrun. by subst.
  - destruct (load_existing_vectorstore_spec self w) as (w1 & Hload & _).
    rewrite Hload in Hrun. by simplify_eq.
  - unfold setup_qa_chain in Hrun.
    destruct (vectorstore self); [|done].
    unfold ret in Hrun. by simplify_eq.
Qed.

(** X13: in every object a program can reach, the chat model is the one
    named at construction, a [vectorstore] is the store of the object's
    own persist directory with the embedding model all-MiniLM-L6-v2, and
    a configured chain searches that same store for 3 chunks, with the
    object's chat model, the prompt of the code and the sources handed
    back; a chain is never configured without a [vectorstore]. *)
Theorem reachable_object_is_consistent self :
  reachable self →
  llm self = {| model := "claude-sonnet-4-20250514" |}
  ∧ (∀ store, vectorstore self = Some store →
       store = {| chroma_directory := persist_directory self;
                  chroma_embedding := "all-MiniLM-L6-v2" |})
  ∧ (∀ chain, qa_chain self = Some chain →
       vectorstore self = Some (retriever_store (chain_retriever chain))
       ∧ search_k (chain_retriever chain) = 3%positive
       ∧ chain_llm chain = llm self
       ∧ chain_return_source_documents chain = true
       ∧ chain_prompt chain = PROMPT).
Proof.
  intros Hreach. split; [by apply reachable_llm|].
  destruct (reachable_shape self Hreach) as [Hstore Hchain]. split.
  - intros store Hs. destruct Hstore as [Hnone | Hsome]; [congruence|].
    rewrite Hsome in Hs. by injection Hs as <-.
  - intros chain Hc. destruct Hchain as [Hnone | [Hsome Hv]]; [congruence|].
    rewrite Hsome in Hc. injection Hc as <-. by rewrite Hv.
Qed.

(** X14: a method that returns never takes back what the object had: the
    paths and the chat model stay, a [vectorstore] that was set stays set
    and a chain that was configured stays configured, also through a new
    build or load. *)
Theorem methods_never_unset self self' w w' :
  load_and_process_pdf self w = (w', Ok self')
  ∨ load_existing_vectorstore self w = (w', Ok self')
  ∨ setup_qa_chain self w = (w', Ok self') →
  pdf_path self' = pdf_path self
  ∧ persist_directory self' = persist_directory self
  ∧ llm self' = llm self
  ∧ is_Some (vectorstore self')
  ∧ (∀ chain, qa_chain self = Some chain → is_Some (qa_chain self')).
Proof.
  intros [Hrun | [Hrun | Hrun]].
  - apply load_and_process_pdf_returns in Hrun. subst. simpl. eauto 10.
  - destruct (load_existing_vectorstore_spec self w) as (w1 & Hload & _).
    rewrite Hload in Hrun. simplify_eq. simpl. eauto 10.
  - unfold setup_qa_chain in Hrun.
    destruct (vectorstore self) as [store|] eqn:Hstore; [|done].
    unfold ret in Hrun. simplify_eq. simpl. rewrite Hstore. eauto 10.
Qed.

Lemma sources_among_entries (qv : Vec) (es : list IndexEntry) k d :
  d ∈ List.map entry_doc (firstn k (rank qv es)) →
  d ∈ List.map entry_doc es.
Proof.
  intros Hd. apply list_elem_of_fmap in Hd as (e & -> & He).
  apply list_elem_of_fmap. exists e. split; [done|].
  apply elem_of_take in He as (i & Hi & _).
  apply list_elem_of_lookup_2 in Hi.
  by rewrite (rank_Permutation qv es) in Hi.
Qed.

(** X15: on a first run, when the persist directory was absent, every
    source a query returns right after the set-up of [main] is one of the
    chunks of the PDF, and there are min(3, number of chunks) of them. *)
Theorem first_run_sources_are_chunks_of_the_pdf w w1 w2 rag question r :
  disk w !! default_persist_directory = None →
  main_setup w = (w1, Ok rag) →
  query rag question w1 = (w2, Ok r) →
  ∃ pages chunks,
    pdf_load PDF_PATH = Ok pages
    ∧ split_documents 1000 200 pages = Ok chunks
    ∧ (∀ d, d ∈ sources r → d ∈ chunks)
    ∧ length (sources r) = Nat.min 3 (length chunks).
Proof.
  intros Habsent Hsetup Hquery.
  rewrite main_setup_not_found in Hsetup by done. unfold bind in Hsetup.
  destruct (load_and_process_pdf fresh w) as [w1' [rag1|e]] eqn:Hbuild;
    [|done].
  destruct (build_returns_aux fresh rag1 w w1' Hbuild)
    as (pages & chunks & new & Hload & Hsplit & Hentries & Hdocs & _ & ->).
  rewrite setup_after_vectorstore in Hsetup. injection Hsetup as <- <-.
  assert (entries_at w (persist_directory fresh) = []) as Hempty.
  { unfold entries_at. simpl. by rewrite Habsent. }
  rewrite Hempty in Hentries. simpl in Hentries.
  exists pages, chunks. split; [done|]. split; [done|].
  unfold query, chain_invoke, bind in Hquery. simpl in Hquery.
  unfold retriever_invoke, similarity_search, bind, lift in Hquery.
  simpl in Hquery.
  destruct (embed_query embedding_model_name question) as [qv|e]; [|done].
  fold default_persist_directory in Hquery.
  change (entries_at w1' "./chroma_db")
    with (entries_at w1' (persist_directory fresh)) in Hquery.
  rewrite Hentries in Hquery.
  unfold llm_call, ret in Hquery.
  destruct (llm_invoke _ _) as [text|e]; [|done].
  injection Hquery as _ <-. simpl. split.
  - intros d Hd. apply sources_among_entries in Hd. by rewrite Hdocs in Hd.
  - rewrite length_map, length_firstn.
    rewrite (Permutation_length (rank_Permutation qv new)).
    by rewrite <- Hdocs, length_map.
Qed.

End States.

(** ** [simple_demo] *)

Section SimpleDemo.

Context `{Collaborators}.

Lemma int_str_str_int n : int_str (str_int n) = Some n.
Proof.
  unfold int_str, str_int.
  rewrite NilZero.isi.
  - simpl. by rewrite DecimalZ.of_to.
  - destruct n; simpl; [done| |done].
    intros [= Hnil]. by apply DecimalPos.Unsigned.to_uint_nonnil in Hnil.
  - destruct n; simpl; [done|done|].
    intros [= Hnil]. by apply DecimalPos.Unsigned.to_uint_nonnil in Hnil.
Qed.

Lemma str_int_inj n m : str_int n = str_int m → n = m.
Proof.
  intros Heq. pose proof (int_str_str_int n) as Hn.
  rewrite Heq, int_str_str_int in Hn. by injection Hn.
Qed.

Lemma append_inv_head s t1 t2 : s +:+ t1 = s +:+ t2 → t1 = t2.
Proof.
  induction s as [|c s IH]; [done|].
  change (String c s +:+ t1) with (String c (s +:+ t1)).
  change (String c s +:+ t2) with (String c (s +:+ t2)).
  intros [= Heq]. by apply IH.
Qed.

Lemma length_append s t :
  String.length (s +:+ t) = (String.length s + String.length t)%nat.
Proof.
  induction s as [|c s IH]; [done|].
  change (String c s +:+ t) with (String c (s +:+ t)). simpl. by rewrite IH.
Qed.

Lemma append_inv_tail t : ∀ s1 s2, s1 +:+ t = s2 +:+ t → s1 = s2.
Proof.
  induction s1 as [|c1 s1 IH]; intros [|c2 s2] Heq.
  - done.
  - apply (f_equal String.length) in Heq.
    rewrite !length_append in Heq. simpl in Heq. lia.
  - apply (f_equal String.length) in Heq.
    rewrite !length_append in Heq. simpl in Heq. lia.
  - change (String c1 s1 +:+ t) with (String c1 (s1 +:+ t)) in Heq.
    change (String c2 s2 +:+ t) with (String c2 (s2 +:+ t)) in Heq.
    injection Heq as -> Heq. f_equal. by apply IH.
Qed.

Lemma answer_file_name_inj i j :
  answer_file_name i = answer_file_name j → i = j.
Proof.
  unfold answer_file_name. intros Heq.
  apply append_inv_head, append_inv_tail in Heq. by apply str_int_inj.
Qed.

(** X16: the files of different questions have different names, so no
    answer overwrites another. *)
Theorem answer_files_are_distinct i j :
  answer_file_name i = answer_file_name j ↔ i = j.
Proof.
  split; [apply answer_file_name_inj | by intros ->].
Qed.

Lemma ask_and_save_returns_aux rag questions :
  ∀ i files w files' w',
    ask_and_save rag i questions files w = (files', w', Ok tt) →
    (∀ k question,
       questions !! k = Some question →
       ∃ r w0 w1,
         query rag question w0 = (w1, Ok r)
         ∧ files' !! answer_file_name (i + Z.of_nat k)
           = Some (answer_file_text question r))
    ∧ (∀ path,
         (∀ k, (k < length questions)%nat →
               path ≠ answer_file_name (i + Z.of_nat k)) →
         files' !! path = files !! path).
Proof.
  induction questions as [|question questions IH];
    intros i files w files' w' Hrun; simpl in Hrun.
  - injection Hrun as <- <-. split; [by intros k q Hk|done].
  - destruct (query rag question w) as [w1 [r|e]] eqn:Hquery; [|done].
    destruct (IH _ _ _ _ _ Hrun) as [Hwritten Hother]. split.
    + intros [|k] q Hk; simpl in Hk.
      * injection Hk as <-. exists r, w, w1. split; [done|].
        replace (i + Z.of_nat 0)%Z with i by lia.
        rewrite Hother; [by rewrite lookup_insert_eq|].
        intros k _ Heq. apply answer_file_name_inj in Heq. lia.
      * destruct (Hwritten k q Hk) as (r' & w0 & w2 & Hq & Hfile).
        exists r', w0, w2. split; [done|].
        by replace (i + Z.of_nat (S k))%Z with (i + 1 + Z.of_nat k)%Z by lia.
    + intros path Hpath. rewrite Hother.
      * apply lookup_insert_ne. intros Heq.
        apply (Hpath 0%nat); [simpl; lia|].
        replace (i + Z.of_nat 0)%Z with i by lia. done.
      * intros k Hk.
        replace (i + 1 + Z.of_nat k)%Z with (i + Z.of_nat (S k))%Z by lia.
        apply Hpath. simpl. lia.
Qed.

Lemma ask_and_save_other_files rag questions :
  ∀ i files w files' w' out path,
    ask_and_save rag i questions files w = (files', w', out) →
    (∀ j, (j < length questions)%nat →
          path ≠ answer_file_name (i + Z.of_nat j)) →
    files' !! path = files !! path.
Proof.
  induction questions as [|question questions IH];
    intros i files w files' w' out path Hrun Hpath; simpl in Hrun.
  - by injection Hrun as <- _ _.
  - destruct (query rag question w) as [w1 [r|e1]].
    + rewrite (IH _ _ _ _ _ _ path Hrun).
      * apply lookup_insert_ne. intros Heq. apply (Hpath 0%nat).
        { simpl. lia. }
        by replace (i + Z.of_nat 0)%Z with i by lia.
      * intros j Hj.
        replace (i + 1 + Z.of_nat j)%Z with (i + Z.of_nat (S j))%Z by lia.
        apply Hpath. simpl. lia.
    + by injection Hrun as <- _ _.
Qed.

Lemma ask_and_save_world rag questions :
  ∀ i files w files' w' out,
    ask_and_save rag i questions files w = (files', w', out) →
    disk w' = disk w
    ∧ (length (llm_calls w') ≤ length (llm_calls w) + length questions)%nat.
Proof.
  induction questions as [|question questions IH];
    intros i files w files' w' out Hrun; simpl in Hrun.
  - injection Hrun as _ <- _. split; [done|lia].
  - destruct (query_effect rag question w) as [Hdisk Hcalls].
    assert (length (llm_calls (query rag question w).1)
            ≤ length (llm_calls w) + 1)%nat as Hone.
    { destruct Hcalls as [-> | [prompt ->]]; [lia|].
      rewrite length_app. simpl. lia. }
    destruct (query rag question w) as [w1 [r|e1]]; simpl in *.
    + destruct (IH _ _ _ _ _ _ Hrun) as [Hdisk' Hcalls'].
      split; [congruence|lia].
    + injection Hrun as _ <- _. split; [done|lia].
Qed.




(** X19: [simple_demo] as a whole.  Without the PDF file it does nothing
    at all, even when an index exists.  In every case the only files it
    can write are answer_1.txt, answer_2.txt and answer_3.txt, and it
    calls the chat model at most 3 times; when it returns with the PDF
    present, these three files hold the answers to the three questions of
    the code. *)
Theorem simple_demo_writes_only_answer_files files w files' w' out :
  simple_demo files w = (files', w', out) →
  (files !! PDF_PATH = None → files' = files ∧ w' = w ∧ out = Ok tt)
  ∧ (∀ path,
       path ≠ "answer_1.txt" → path ≠ "answer_2.txt" →
       path ≠ "answer_3.txt" →
       files' !! path = files !! path)
  ∧ (length (llm_calls w') ≤ length (llm_calls w) + 3)%nat
  ∧ (is_Some (files !! PDF_PATH) → out = Ok tt →
     ∀ k question,
       demo_questions !! k = Some question →
       ∃ r w0 w1,
         query main_object question w0 = (w1, Ok r)
         ∧ files' !! answer_file_name (1 + Z.of_nat k)
           = Some (answer_file_text question r)).
Proof.
  unfold simple_demo. intros Hrun.
  destruct (files !! PDF_PATH) as [pdf|] eqn:Hpdf.
  - split; [done|].
    destruct (main_setup w) as [w1 [rag|e]] eqn:Hsetup.
    + destruct (main_setup_returns_aux w w1 rag Hsetup)
        as (-> & _ & _ & Hcalls & _).
      destruct (ask_and_save_world _ _ _ _ _ _ _ _ Hrun) as [_ Hbound].
      split; [|split].
      * intros path H1 H2 H3.
        apply (ask_and_save_other_files _ _ _ _ _ _ _ _ _ Hrun).
        intros [|[|[|j]]] Hj; simpl in Hj; try done. lia.
      * rewrite Hcalls in Hbound. simpl in Hbound. lia.
      * intros _ -> k question Hk.
        by apply (ask_and_save_returns_aux _ _ _ _ _ _ _ Hrun).
    + injection Hrun as <- <- <-.
      destruct (main_setup_fails_aux w w1 e Hsetup) as [_ Hbuild].
      pose proof (build_only_appends_aux fresh w) as (Hcalls & _).
      rewrite Hbuild in Hcalls. simpl in Hcalls.
      split; [done|]. split; [rewrite Hcalls; lia|]. by intros _ [=].
  - injection Hrun as <- <- <-. split; [done|]. split; [done|].
    split; [lia|]. by intros [? [=]].
Qed.

End SimpleDemo.

(** ** Concrete runs of the rest *)

Lemma split_text_chunks_within_chunk_size_witness :
  ∃ chunks,
    split_text 1000 200 two_paragraphs = Ok chunks
    ∧ Forall (within_size 1000) chunks.
Proof.
  apply (split_text_chunks_within_chunk_size 1000 200); lia.
Defined.

Lemma split_documents_page_by_page_witness :
  ∃ chunks1 chunks2,
    split_documents 1000 200 [page 0 two_paragraphs] = Ok chunks1
    ∧ split_documents 1000 200 demo_pages = Ok chunks2
    ∧ split_documents 1000 200 ([page 0 two_paragraphs] ++ demo_pages)
      = Ok (chunks1 ++ chunks2)%list
    ∧ Forall (fun chunk =>
                within_size 1000 (page_content chunk)
                ∧ ∃ doc, doc ∈ [page 0 two_paragraphs]
                         ∧ metadata chunk = metadata doc)
        chunks1.
Proof.
  apply (split_documents_page_by_page 1000 200); lia.
Defined.

Example build_demo :
  @load_and_process_pdf demo_collaborators fresh empty_world
  = (demo_world, Ok (set_vectorstore fresh (the_store fresh))).
Proof. vm_compute. reflexivity. Qed.

Lemma build_indexes_every_chunk_in_order_witness :
  ∃ pages chunks new,
    @pdf_load demo_collaborators (pdf_path fresh) = Ok pages
    ∧ split_documents 1000 200 pages = Ok chunks
    ∧ entries_at demo_world (persist_directory fresh)
      = (entries_at empty_world (persist_directory fresh) ++ new)%list
    ∧ List.map entry_doc new = chunks
    ∧ Forall (fun chunk => within_size 1000 (page_content chunk)) chunks
    ∧ set_vectorstore fresh (the_store fresh)
      = set_vectorstore fresh (the_store fresh).
Proof.
  apply (@build_indexes_every_chunk_in_order demo_collaborators fresh
           (set_vectorstore fresh (the_store fresh)) empty_world demo_world).
  vm_compute. reflexivity.
Defined.

Lemma main_setup_loads_an_existing_index_witness :
  @main_setup failing_collaborators foreign_world
  = @main_setup demo_collaborators foreign_world
  ∧ ∀ w' rag,
      @main_setup failing_collaborators foreign_world = (w', Ok rag) →
      w' = foreign_world ∧ rag = main_object
      ∧ @Ready failing_collaborators rag.
Proof.
  apply (main_setup_loads_an_existing_index failing_collaborators
           demo_collaborators foreign_world).
  vm_compute. by eexists.
Defined.

Lemma main_setup_returns_ready_object_witness :
  demo_ready = main_object
  ∧ @Ready demo_collaborators demo_ready
  ∧ is_Some (disk demo_world !! default_persist_directory)
  ∧ only_appends default_persist_directory empty_world demo_world.
Proof.
  apply (@main_setup_returns_ready_object demo_collaborators empty_world
           demo_world demo_ready).
  vm_compute. reflexivity.
Defined.

(** The world after the build that fails on the second of three batches. *)
Example failed_build_world :
  (@load_and_process_pdf failing_collaborators fresh empty_world).1
  = {| disk :=
         {[ default_persist_directory :=
              {| stored_embedding_model := None;
                 entries := [demo_entry (page 0 "first")] |} ]};
       llm_calls := [] |}.
Proof. vm_compute. reflexivity. Qed.

(** An interrupt during a query is not caught by the loop of [main]: the
    session ends there and the lines after it are not read. *)
Example interactive_loop_interrupted :
  @interactive_loop interrupted_collaborators demo_ready
    [demo_question; demo_question; "quit"] demo_world
  = (prompt_sent demo_world
       (prompt_text demo_question
          (List.map entry_doc
             (firstn 3
                (@rank interrupted_collaborators (length_vector demo_question)
                   (entries_at demo_world default_persist_directory))))),
     Raise (Exn "KeyboardInterrupt" EmptyString)).
Proof. vm_compute. reflexivity. Qed.

(** An API failure during a query is caught: both questions are asked and
    the session ends on [quit]. *)
Example interactive_loop_offline :
  (@interactive_loop offline_collaborators demo_ready
     [demo_question; demo_question; "quit"] demo_world).2
  = Ok tt
  ∧ length
      (llm_calls
         (@interactive_loop offline_collaborators demo_ready
            [demo_question; demo_question; "quit"] demo_world).1)
    = 2%nat.
Proof. vm_compute. split; reflexivity. Qed.

Lemma setup_qa_chain_returns_after_load_or_build_witness :
  vectorstore (set_vectorstore fresh (the_store fresh))
  = Some (the_store fresh)
  ∧ setup_qa_chain (set_vectorstore fresh (the_store fresh)) demo_world
    = (demo_world,
       Ok (set_qa_chain (set_vectorstore fresh (the_store fresh))
             (the_chain fresh))).
Proof.
  apply (@setup_qa_chain_returns_after_load_or_build demo_collaborators fresh
           (set_vectorstore fresh (the_store fresh)) empty_world demo_world).
  left. vm_compute. reflexivity.
Defined.

Lemma failed_build_is_loaded_by_next_run_witness :
  ∃ w', @load_and_process_pdf failing_collaborators fresh empty_world
        = (w', Raise (Exn "RuntimeError" "embedding backend unavailable"))
    ∧ is_Some (disk w' !! default_persist_directory)
    ∧ ∀ w'' rag,
        @main_setup failing_collaborators w' = (w'', Ok rag) →
        w'' = w'
        ∧ rag = main_object
        ∧ entries_at w'' default_persist_directory
          = (entries_at empty_world default_persist_directory
             ++ concat (zip_with batch_entries [[page 0 "first"]]
                          [[length_vector "first"]]))%list.
Proof.
  apply (@failed_build_is_loaded_by_next_run failing_collaborators
           empty_world three_pages three_pages
           [[page 0 "first"]] [[length_vector "first"]]
           [page 1 "second"] [[page 2 "third"]]).
  - reflexivity.
  - vm_compute. reflexivity.
  - vm_compute. reflexivity.
  - constructor; [|constructor]. split; reflexivity.
  - reflexivity.
Defined.

Lemma reachable_object_is_consistent_witness :
  llm demo_ready = {| model := "claude-sonnet-4-20250514" |}
  ∧ (∀ store, vectorstore demo_ready = Some store →
       store = {| chroma_directory := persist_directory demo_ready;
                  chroma_embedding := "all-MiniLM-L6-v2" |})
  ∧ (∀ chain, qa_chain demo_ready = Some chain →
       vectorstore demo_ready = Some (retriever_store (chain_retriever chain))
       ∧ search_k (chain_retriever chain) = 3%positive
       ∧ chain_llm chain = llm demo_ready
       ∧ chain_return_source_documents chain = true
       ∧ chain_prompt chain = PROMPT).
Proof.
  apply (@reachable_object_is_consistent demo_collaborators demo_ready).
  apply demo_ready_Ready.
Defined.

Lemma methods_never_unset_witness :
  pdf_path (set_vectorstore demo_ready (the_store demo_ready))
  = pdf_path demo_ready
  ∧ persist_directory (set_vectorstore demo_ready (the_store demo_ready))
    = persist_directory demo_ready
  ∧ llm (set_vectorstore demo_ready (the_store demo_ready)) = llm demo_ready
  ∧ is_Some (vectorstore (set_vectorstore demo_ready (the_store demo_ready)))
  ∧ (∀ chain, qa_chain demo_ready = Some chain →
       is_Some (qa_chain (set_vectorstore demo_ready (the_store demo_ready)))).
Proof.
  apply (@methods_never_unset demo_collaborators demo_ready
           (set_vectorstore demo_ready (the_store demo_ready))
           demo_world
           (@load_and_process_pdf demo_collaborators demo_ready demo_world).1).
  left. vm_compute. reflexivity.
Defined.

Lemma first_run_sources_are_chunks_of_the_pdf_witness :
  ∃ pages chunks,
    @pdf_load demo_collaborators PDF_PATH = Ok pages
    ∧ split_documents 1000 200 pages = Ok chunks
    ∧ (∀ d, d ∈ sources demo_result → d ∈ chunks)
    ∧ length (sources demo_result) = Nat.min 3 (length chunks).
Proof.
  apply (@first_run_sources_are_chunks_of_the_pdf demo_collaborators
           empty_world demo_world
           (prompt_sent demo_world (prompt_text demo_question demo_retrieved))
           demo_ready demo_question demo_result).
  - reflexivity.
  - vm_compute. reflexivity.
  - vm_compute. reflexivity.
Defined.



(** The files after [simple_demo] ran in the empty world with the PDF in
    place: the PDF and three answers. *)
Example simple_demo_files :
  dom (@simple_demo demo_collaborators demo_files empty_world).1.1
  = {[ PDF_PATH; "answer_1.txt"; "answer_2.txt"; "answer_3.txt" ]}.
Proof. vm_compute. reflexivity. Qed.

Lemma simple_demo_writes_only_answer_files_witness :
  (demo_files !! PDF_PATH = None
   → (@simple_demo demo_collaborators demo_files empty_world).1.1 = demo_files
     ∧ (@simple_demo demo_collaborators demo_files empty_world).1.2
       = empty_world
     ∧ (@simple_demo demo_collaborators demo_files empty_world).2 = Ok tt)
  ∧ (∀ path,
       path ≠ "answer_1.txt" → path ≠ "answer_2.txt" →
       path ≠ "answer_3.txt" →
       (@simple_demo demo_collaborators demo_files empty_world).1.1 !! path
       = demo_files !! path)
  ∧ (length (llm_calls
               (@simple_demo demo_collaborators demo_files empty_world).1.2)
     ≤ length (llm_calls empty_world) + 3)%nat
  ∧ (is_Some (demo_files !! PDF_PATH) →
     (@simple_demo demo_collaborators demo_files empty_world).2 = Ok tt →
     ∀ k question,
       demo_questions !! k = Some question →
       ∃ r w0 w1,
         @query demo_collaborators main_object question w0 = (w1, Ok r)
         ∧ (@simple_demo demo_collaborators demo_files empty_world).1.1
           !! answer_file_name (1 + Z.of_nat k)
           = Some (answer_file_text question r)).
Proof.
  apply (@simple_demo_writes_only_answer_files demo_collaborators demo_files
           empty_world).
  by destruct (simple_demo demo_files empty_world) as [[? ?] ?].
Defined.
